(** * Country service: the two resolve endpoints of [src/api/index.js]

    A shallow embedding of the Express handlers
    [GET /resolve/user/input] and [GET /resolve/number/whitelist],
    followed by the properties of the specification that concern them.

    Strings are JavaScript strings whose code units lie below U+0100,
    carried by [string] (one [ascii] per code unit).  On that range
    [trim], [toLowerCase], [split], [replaceAll] and concatenation stay
    inside the range, so the model is closed under every operation the
    handlers perform. *)

From Stdlib Require Import String Ascii List Bool Arith Lia.
Import ListNotations.
Local Open Scope string_scope.
Local Open Scope bool_scope.

(* ===================================================================== *)
(** ** JavaScript string primitives *)
(* ===================================================================== *)

Module Js.

(** [WhiteSpace] and [LineTerminator] below U+0100: TAB, LF, VT, FF, CR,
    SPACE and NO-BREAK SPACE.  This is both what [String.prototype.trim]
    removes and what the regular-expression class [\s] matches. *)
Definition isWhiteSpace (c : ascii) : bool :=
  let n := nat_of_ascii c in
  (((9 <=? n) && (n <=? 13)) || (n =? 32) || (n =? 160))%nat.

(** Lower-case mapping below U+0100: [A-Z] and U+00C0..U+00DE without the
    multiplication sign U+00D7 move up by 32; everything else is fixed. *)
Definition toLowerChar (c : ascii) : ascii :=
  let n := nat_of_ascii c in
  if (((65 <=? n) && (n <=? 90))
      || ((192 <=? n) && (n <=? 222) && negb (n =? 215)))%nat
  then ascii_of_nat (n + 32)
  else c.

Fixpoint toLowerCase (s : string) : string :=
  match s with
  | "" => ""
  | String c r => String (toLowerChar c) (toLowerCase r)
  end.

(** [!s] for a string [s]: only the empty string is falsy. *)
Definition isEmpty (s : string) : bool :=
  match s with "" => true | String _ _ => false end.

Fixpoint trimStart (s : string) : string :=
  match s with
  | "" => ""
  | String c r => if isWhiteSpace c then trimStart r else s
  end.

Fixpoint trimEnd (s : string) : string :=
  match s with
  | "" => ""
  | String c r =>
      match trimEnd r with
      | "" => if isWhiteSpace c then "" else String c ""
      | r' => String c r'
      end
  end.

Definition trim (s : string) : string := trimEnd (trimStart s).

(** [s.startsWith(p)] *)
Fixpoint startsWith (s p : string) {struct p} : bool :=
  match p with
  | "" => true
  | String b p' =>
      match s with
      | "" => false
      | String a s' => Ascii.eqb a b && startsWith s' p'
      end
  end.

(** [s.split(sep)] for a one-character separator: never the empty list,
    and ["".split(",")] is [[""]]. *)
Fixpoint split (sep : ascii) (s : string) : list string :=
  match s with
  | "" => [""]
  | String c r =>
      if Ascii.eqb c sep then "" :: split sep r
      else match split sep r with
           | h :: t => String c h :: t
           | [] => [String c ""]
           end
  end.

(** [s.replaceAll(/[cls]/g, "")]: every code unit of the class is dropped. *)
Fixpoint removeAll (cls : ascii -> bool) (s : string) : string :=
  match s with
  | "" => ""
  | String c r => if cls c then removeAll cls r else String c (removeAll cls r)
  end.

(** [l.includes(x)] on an array of strings. *)
Definition includes (l : list string) (x : string) : bool :=
  existsb (String.eqb x) l.

End Js.

Import Js.

(* ===================================================================== *)
(** ** Requests and responses *)
(* ===================================================================== *)

(** A value of [req.query]: [undefined] when the parameter is missing, a
    string, or an array or object when the parameter is repeated or
    written with brackets.  The handlers tell the cases apart with [!x]
    and [typeof x !== "string"]. *)
Inductive qval : Type :=
| QAbsent
| QString (s : string)
| QNested.

(** [!x] negated. *)
Definition truthy (x : qval) : bool :=
  match x with
  | QAbsent => false
  | QString s => negb (isEmpty s)
  | QNested => true
  end.

Record query : Type := Query {
  input : qval;
  validkeys : qval;
  notallowedkeys : qval;
  defaultkey : qval;
  allowednumbers : qval
}.

Record item : Type := Item {
  type : option string;
  message : string
}.

Record response : Type := Response {
  status : nat;
  code : string;
  result : list item
}.

(** What a handler does with a request: it sends one JSON response, or a
    [TypeError] escapes it (calling [.trim()] on a value that has none). *)
Inductive outcome : Type :=
| Json (r : response)
| TypeError.

(** [res.status(400).json({code: "400", result: [{type: "text", message}]})] *)
Definition badRequest (msg : string) : response :=
  {| status := 400; code := "400";
     result := [ {| type := Some "text"; message := msg |} ] |}.

(** [res.status(200).json({code: "200", result: [{message}]})] *)
Definition ok (msg : string) : response :=
  {| status := 200; code := "200";
     result := [ {| type := None; message := msg |} ] |}.

(** Early return: [inl o] ends the handler with outcome [o]. *)
Definition early (A : Type) : Type := (outcome + A)%type.

Definition ret {A : Type} (a : A) : early A := inr a.
Definition reject {A : Type} (msg : string) : early A := inl (Json (badRequest msg)).
Definition throw {A : Type} : early A := inl TypeError.

Definition bind {A B : Type} (m : early A) (k : A -> early B) : early B :=
  match m with
  | inl o => inl o
  | inr a => k a
  end.

Definition run (m : early outcome) : outcome :=
  match m with
  | inl o => o
  | inr o => o
  end.

Notation "x <- m ;; k" := (bind m (fun x => k))
  (at level 61, m at next level, right associativity).
Notation "'check' b 'orElse' msg ;; k" :=
  (bind (if b then ret tt else reject msg) (fun _ => k))
  (at level 61, b at next level, msg at next level, right associativity).

(** [defaultkey = defaultkey?.trim().toLowerCase() || fallback;]
    [?.] short-circuits on [undefined] only: an array or object has no
    [trim] and the call raises. *)
Definition normalizeDefaultKey (fallback : string) (d : qval) : early string :=
  match d with
  | QAbsent => ret fallback
  | QString s =>
      let k := toLowerCase (trim s) in
      ret (if isEmpty k then fallback else k)
  | QNested => throw
  end.

(** [if (!x || typeof x !== "string" || !x.trim()) return 400 msg] ; the
    string is handed on otherwise. *)
Definition requireString (x : qval) (msg : string) : early string :=
  match x with
  | QAbsent => reject msg
  | QNested => reject msg
  | QString s =>
      if isEmpty s || isEmpty (trim s) then reject msg else ret s
  end.

(* ===================================================================== *)
(** ** GET /resolve/user/input *)
(* ===================================================================== *)

(** What [libphonenumber-js] hands back: a [PhoneNumber] with its validity
    and region code, [undefined], or an exception. *)
Record PhoneNumber : Type := Phone {
  isValid : bool;
  country : option string
}.

Inductive parsed : Type :=
| Raised
| Returned (phone : option PhoneNumber).

(** [parseKeys]: the comma-separated keys as an array. *)
Definition parseKeys (keys : qval) : list string :=
  match keys with
  | QString s =>
      if isEmpty s then []
      else filter (fun k => (0 <? String.length k)%nat)
             (map (fun k => toLowerCase (trim k)) (split "," s))
  | _ => []
  end.

(** [if (!rawNumber.startsWith("+")) rawNumber = `+${rawNumber}`] *)
Definition withPlus (rawNumber : string) : string :=
  if startsWith rawNumber "+" then rawNumber else "+" ++ rawNumber.

(** The priority chain on [resolvedKey]; [country &&] is the [Some] case. *)
Definition resolvedKey (country : option string)
    (notAllowedArray validKeysArray : list string) (defaultkey : string) : string :=
  match country with
  | Some c =>
      if includes notAllowedArray c then "not_@llowed"
      else if includes validKeysArray c then c
      else defaultkey
  | None => defaultkey
  end.

(** Lines 21 to 63: the default key is normalised, then the three gates.
    On success the normalised default key and the trimmed input remain. *)
Definition validate (req : query) : early (string * string) :=
  dk <- normalizeDefaultKey "garbage" (defaultkey req) ;;
  inp <- requireString (input req) "Missing required field: input" ;;
  check (truthy (validkeys req) || truthy (notallowedkeys req))
    orElse "At least one of validkeys or notallowedkeys is required" ;;
  let rawNumber := trim inp in
  check (negb (isEmpty rawNumber))
    orElse "Invalid input: empty after normalization" ;;
  ret (dk, rawNumber).

Section UserInput.

Variable parsePhoneNumberFromString : string -> parsed.

(** The [try] block: any exception, a missing or invalid number and a
    missing or empty region code all leave [country] at [null]. *)
Definition resolveCountry (rawNumber : string) : option string :=
  match parsePhoneNumberFromString rawNumber with
  | Raised => None
  | Returned None => None
  | Returned (Some phone) =>
      if isValid phone then
        match country phone with
        | Some c => let l := toLowerCase c in if isEmpty l then None else Some l
        | None => None
        end
      else None
  end.

Definition resolve_user_input (req : query) : outcome :=
  run (
    v <- validate req ;;
    let rawNumber := withPlus (snd v) in
    let country := resolveCountry rawNumber in
    let notAllowedArray := parseKeys (notallowedkeys req) in
    let validKeysArray := parseKeys (validkeys req) in
    ret (Json (ok (resolvedKey country notAllowedArray validKeysArray (fst v))))).

End UserInput.

(* ===================================================================== *)
(** ** GET /resolve/number/whitelist *)
(* ===================================================================== *)

(** The class [[\s\-\\()]]. *)
Definition separator (c : ascii) : bool :=
  isWhiteSpace c
  || Ascii.eqb c "-" || Ascii.eqb c (ascii_of_nat 92)
  || Ascii.eqb c "(" || Ascii.eqb c ")".

(** [normalizeNumber]; both call sites pass a string, for which the first
    test is the emptiness test. *)
Definition normalizeNumber (num : string) : option string :=
  if isEmpty num then None
  else
    let normalized := trim (removeAll separator num) in
    if isEmpty normalized then None
    else Some (withPlus normalized).

Definition notNull (n : option string) : bool :=
  match n with Some _ => true | None => false end.

(** [allowednumbers.split(",").map(normalizeNumber).filter(n => n !== null)] *)
Definition allowedArray (allowednumbers : string) : list (option string) :=
  filter notNull (map normalizeNumber (split "," allowednumbers)).

Definition sameValue (a b : option string) : bool :=
  match a, b with
  | Some x, Some y => String.eqb x y
  | None, None => true
  | _, _ => false
  end.

(** [allowedArray.includes(inputNormalized)] *)
Definition isAllowed (allowed : list (option string)) (inputNormalized : string) : bool :=
  existsb (sameValue (Some inputNormalized)) allowed.

Definition resolve_number_whitelist (req : query) : outcome :=
  run (
    dk <- normalizeDefaultKey "not_@llowed" (defaultkey req) ;;
    inp <- requireString (input req) "Missing required field: input" ;;
    nums <- requireString (allowednumbers req) "Missing required field: allowednumbers" ;;
    inputNormalized <-
      match normalizeNumber inp with
      | None => reject "Invalid input: empty after normalization"
      | Some n => ret n
      end ;;
    let allowed := allowedArray nums in
    check (negb (List.length allowed =? 0)%nat)
      orElse "No valid numbers in allowednumbers" ;;
    ret (Json (ok (if isAllowed allowed inputNormalized then "@llowed" else dk)))).

(* ===================================================================== *)
(** ** Predicates used by the statements *)
(* ===================================================================== *)

(** Every code unit of [s] satisfies [p]. *)
Fixpoint allChars (p : ascii -> bool) (s : string) : bool :=
  match s with
  | "" => true
  | String c r => p c && allChars p r
  end.

(** The request gets past lines 21 to 63 of the handler. *)
Definition passesValidation (req : query) : bool :=
  match validate req with
  | inr _ => true
  | inl _ => false
  end.

(** The parser raises, returns [undefined], or returns a number that is
    not valid. *)
Definition failsToParse (parse : string -> parsed) (rawNumber : string) : Prop :=
  parse rawNumber = Raised
  \/ parse rawNumber = Returned None
  \/ exists phone, parse rawNumber = Returned (Some phone) /\ isValid phone = false.



(** The default key is not supplied, or nothing of it is left by [trim]. *)
Definition defaultKeyMissing (d : qval) : Prop :=
  d = QAbsent \/ exists s, d = QString s /\ trim s = "".

Definition withDefaultKey (req : query) (d : qval) : query :=
  {| input := input req; validkeys := validkeys req;
     notallowedkeys := notallowedkeys req; defaultkey := d;
     allowednumbers := allowednumbers req |}.

(** An allowed number that carries the channel prefix once its separators
    are gone, with or without a leading plus sign. *)
Definition channelPrefixed (a : string) : bool :=
  let d := removeAll separator a in
  startsWith d "whatsapp:" || startsWith d "+whatsapp:".

(** The normalised candidate in the words of the specification: whitespace,
    hyphens, backslashes and parentheses removed, a plus sign put in front
    unless one is there. *)
Definition specSeparator (c : ascii) : bool :=
  isWhiteSpace c
  || existsb (Ascii.eqb c) ["-"%char; ascii_of_nat 92; "("%char; ")"%char].

Definition specCandidate (num : string) : string :=
  let stripped := removeAll specSeparator num in
  match stripped with
  | String "+" _ => stripped
  | _ => "+" ++ stripped
  end.

(* ===================================================================== *)
(** ** Sample requests *)
(* ===================================================================== *)

Definition userQuery (i vk nk dk : qval) : query :=
  {| input := i; validkeys := vk; notallowedkeys := nk; defaultkey := dk;
     allowednumbers := QAbsent |}.

Definition whitelistQuery (i al dk : qval) : query :=
  {| input := i; validkeys := QAbsent; notallowedkeys := QAbsent;
     defaultkey := dk; allowednumbers := al |}.

(** A stand-in for the metadata library that knows two numbers. *)
Definition sampleParser (rawNumber : string) : parsed :=
  if String.eqb rawNumber "+14155550100"
  then Returned (Some {| isValid := true; country := Some "US" |})
  else if String.eqb rawNumber "+923001234567"
  then Returned (Some {| isValid := true; country := Some "PK" |})
  else if String.eqb rawNumber "+boom" then Raised
  else Returned None.

(** [validkeys=,] : supplied, but without a single key. *)
Definition commaOnly : query :=
  userQuery (QString "+14155550100") (QString ",") QAbsent QAbsent.



(* ===================================================================== *)
(** ** The other copies of GET /resolve/user/input *)
(* ===================================================================== *)

(** The handler as kept beside [src/api/index.js]: the same lines, with
    the blocked marker spelled ["not_allowed"]. *)
Module Copy.

Definition resolvedKey (country : option string)
    (notAllowedArray validKeysArray : list string) (defaultkey : string) : string :=
  match country with
  | Some c =>
      if includes notAllowedArray c then "not_allowed"
      else if includes validKeysArray c then c
      else defaultkey
  | None => defaultkey
  end.

Definition resolve_user_input (parsePhoneNumberFromString : string -> parsed)
    (req : query) : outcome :=
  run (
    v <- validate req ;;
    let rawNumber := withPlus (snd v) in
    let country := resolveCountry parsePhoneNumberFromString rawNumber in
    let notAllowedArray := parseKeys (notallowedkeys req) in
    let validKeysArray := parseKeys (validkeys req) in
    ret (Json (ok (resolvedKey country notAllowedArray validKeysArray (fst v))))).

End Copy.

(** The first handler: no deny list, the channel prefix is removed, the
    keys are lower-cased but not trimmed. *)
Module Legacy.

Fixpoint skip (n : nat) (s : string) : string :=
  match n, s with
  | O, _ => s
  | S _, "" => ""
  | S k, String _ r => skip k r
  end.

(** [s.replace(pat, "")] for a string pattern: the first occurrence goes. *)
Fixpoint removeFirst (pat s : string) : string :=
  if startsWith s pat then skip (String.length pat) s
  else match s with
       | "" => ""
       | String c r => String c (removeFirst pat r)
       end.

(** [defaultkey = defaultkey?.toLowerCase() || 'garbage';] *)
Definition normalizeDefaultKey (d : qval) : early string :=
  match d with
  | QAbsent => ret "garbage"
  | QString s =>
      let k := toLowerCase s in
      ret (if isEmpty k then "garbage" else k)
  | QNested => throw
  end.

(** A method of strings called on a query value: an array or object has
    none and the call raises.  [undefined] does not get here. *)
Definition asString (x : qval) : early string :=
  match x with
  | QString s => ret s
  | _ => throw
  end.

Section Handler.

Variable parsePhoneNumber : string -> parsed.

(** The [try] block; [country] stays [undefined] when the number has no
    region, and is [null] after any exception. *)
Definition resolveCountry (rawNumber : string) : option string :=
  match parsePhoneNumber rawNumber with
  | Raised => None
  | Returned None => None
  | Returned (Some phone) =>
      if isValid phone then
        match country phone with
        | Some c => Some (toLowerCase c)
        | None => None
        end
      else None
  end.

(** [country && validKeysArray.includes(country) ? country : defaultkey] *)
Definition resolvedKey (country : option string) (validKeysArray : list string)
    (defaultkey : string) : string :=
  match country with
  | Some c => if negb (isEmpty c) && includes validKeysArray c then c else defaultkey
  | None => defaultkey
  end.

Definition resolve_user_input (req : query) : outcome :=
  run (
    dk <- normalizeDefaultKey (defaultkey req) ;;
    check (truthy (input req) && truthy (validkeys req))
      orElse "Missing required fields: input or validkeys" ;;
    inp <- asString (input req) ;;
    let rawNumber := withPlus (trim (removeFirst "whatsapp:" inp)) in
    let country := resolveCountry rawNumber in
    keys <- asString (validkeys req) ;;
    let validKeysArray := map toLowerCase (split "," keys) in
    ret (Json (ok (resolvedKey country validKeysArray dk)))).

End Handler.

(** [pat] occurs somewhere in [s]. *)
Fixpoint occurs (pat s : string) : bool :=
  startsWith s pat
  || match s with
     | "" => false
     | String _ r => occurs pat r
     end.

End Legacy.

(* ===================================================================== *)
(** ** Requests that differ in one parameter *)
(* ===================================================================== *)

Definition withInput (req : query) (v : qval) : query :=
  {| input := v; validkeys := validkeys req;
     notallowedkeys := notallowedkeys req; defaultkey := defaultkey req;
     allowednumbers := allowednumbers req |}.

Definition withValidKeys (req : query) (v : qval) : query :=
  {| input := input req; validkeys := v;
     notallowedkeys := notallowedkeys req; defaultkey := defaultkey req;
     allowednumbers := allowednumbers req |}.

Definition withNotAllowedKeys (req : query) (v : qval) : query :=
  {| input := input req; validkeys := validkeys req;
     notallowedkeys := v; defaultkey := defaultkey req;
     allowednumbers := allowednumbers req |}.

Definition withAllowedNumbers (req : query) (v : qval) : query :=
  {| input := input req; validkeys := validkeys req;
     notallowedkeys := notallowedkeys req; defaultkey := defaultkey req;
     allowednumbers := v |}.

(** A parameter the gates accept: a string of which [trim] leaves something. *)
Definition usable (x : qval) : Prop :=
  exists s, x = QString s /\ trim s <> "".

Definition notComma (c : ascii) : bool := negb (Ascii.eqb c ",").

Definition notSeparator (c : ascii) : bool := negb (separator c).

(** Case analysis over the 256 code units. *)
Ltac each_ascii c :=
  destruct c as [[] [] [] [] [] [] [] []]; vm_compute; try reflexivity; try discriminate.

(* ===================================================================== *)
(** ** The examples of the specification *)
(* ===================================================================== *)

Example us_allowed :
  resolve_user_input sampleParser
    (userQuery (QString "+14155550100") (QString "us,ca") QAbsent QAbsent)
  = Json (ok "us").
Proof. reflexivity. Qed.

Example pk_denied :
  resolve_user_input sampleParser
    (userQuery (QString "+923001234567") (QString "pk") (QString "pk") QAbsent)
  = Json (ok "not_@llowed").
Proof. reflexivity. Qed.

Example not_a_number :
  resolve_user_input sampleParser
    (userQuery (QString "notanumber") (QString "us") QAbsent (QString "xx"))
  = Json (ok "xx").
Proof. reflexivity. Qed.

Example parser_raises :
  resolve_user_input sampleParser
    (userQuery (QString "boom") (QString "us") QAbsent QAbsent)
  = Json (ok "garbage").
Proof. reflexivity. Qed.

Example whitelist_hit :
  resolve_number_whitelist
    (whitelistQuery (QString "+14155550100")
       (QString "+14155550100,+923001234567") QAbsent)
  = Json (ok "@llowed").
Proof. reflexivity. Qed.

Example split_samples :
  split "," "" = [""] /\ split "," "a,b" = ["a"; "b"] /\ split "," "a," = ["a"; ""]
  /\ split "," ",," = [""; ""; ""].
Proof. repeat split. Qed.

Example trim_samples :
  trim "  a b  " = "a b" /\ trim "   " = "" /\ toLowerCase " US,Ca" = " us,ca".
Proof. repeat split. Qed.

(* ===================================================================== *)
(** ** Code units *)
(* ===================================================================== *)

Lemma toLowerChar_idem (c : ascii) : toLowerChar (toLowerChar c) = toLowerChar c.
Proof. each_ascii c. Qed.

Lemma isWhiteSpace_toLowerChar (c : ascii) :
  isWhiteSpace (toLowerChar c) = isWhiteSpace c.
Proof. each_ascii c. Qed.

Lemma comma_toLowerChar (c : ascii) :
  Ascii.eqb (toLowerChar c) "," = Ascii.eqb c ",".
Proof. each_ascii c. Qed.

Lemma whiteSpace_separator (c : ascii) :
  isWhiteSpace c = true -> separator c = true.
Proof. unfold separator. intros ->. reflexivity. Qed.

Lemma specSeparator_separator (c : ascii) : specSeparator c = separator c.
Proof.
  unfold specSeparator, separator. simpl.
  destruct (isWhiteSpace c); simpl; [reflexivity|].
  repeat (match goal with |- context [Ascii.eqb c ?x] => destruct (Ascii.eqb c x) end;
          simpl; try reflexivity).
Qed.

(* ===================================================================== *)
(** ** Strings *)
(* ===================================================================== *)

Lemma isEmpty_true (s : string) : isEmpty s = true <-> s = "".
Proof. destruct s; simpl; split; congruence. Qed.

Lemma isEmpty_false (s : string) : isEmpty s = false <-> s <> "".
Proof. destruct s; simpl; split; congruence. Qed.

Lemma isEmpty_length (s : string) : (0 <? String.length s)%nat = negb (isEmpty s).
Proof. destruct s; reflexivity. Qed.

Lemma isEmpty_toLowerCase (s : string) : isEmpty (toLowerCase s) = isEmpty s.
Proof. destruct s; reflexivity. Qed.

Lemma toLowerCase_idem (s : string) : toLowerCase (toLowerCase s) = toLowerCase s.
Proof.
  induction s as [|c r IH]; simpl; [reflexivity|].
  now rewrite toLowerChar_idem, IH.
Qed.

Lemma trimStart_toLowerCase (s : string) :
  trimStart (toLowerCase s) = toLowerCase (trimStart s).
Proof.
  induction s as [|c r IH]; simpl; [reflexivity|].
  rewrite isWhiteSpace_toLowerChar.
  destruct (isWhiteSpace c); [exact IH | reflexivity].
Qed.

Lemma trimEnd_toLowerCase (s : string) :
  trimEnd (toLowerCase s) = toLowerCase (trimEnd s).
Proof.
  induction s as [|c r IH]; simpl; [reflexivity|].
  rewrite IH, isWhiteSpace_toLowerChar.
  destruct (trimEnd r); simpl; [|reflexivity].
  destruct (isWhiteSpace c); reflexivity.
Qed.

Lemma trim_toLowerCase (s : string) : trim (toLowerCase s) = toLowerCase (trim s).
Proof. unfold trim. now rewrite trimStart_toLowerCase, trimEnd_toLowerCase. Qed.


Lemma split_not_nil (sep : ascii) (s : string) : split sep s <> [].
Proof.
  destruct s as [|c r]; simpl; [discriminate|].
  destruct (Ascii.eqb c sep); [discriminate|].
  destruct (split sep r); discriminate.
Qed.

(** A segment of [s] is made of code units of [s]. *)
Lemma split_allChars (p : ascii -> bool) (sep : ascii) (s a : string) :
  allChars p s = true -> In a (split sep s) -> allChars p a = true.
Proof.
  revert a. induction s as [|c r IH]; simpl; intros a Hp Hin.
  - destruct Hin as [<-|[]]. reflexivity.
  - apply andb_prop in Hp. destruct Hp as [Hc Hr].
    destruct (Ascii.eqb c sep).
    + destruct Hin as [<-|Hin]; [reflexivity | now apply IH].
    + destruct (split sep r) as [|h t] eqn:E.
      * destruct Hin as [<-|[]]. simpl. now rewrite Hc.
      * destruct Hin as [<-|Hin].
        -- simpl. rewrite Hc. apply IH; [assumption | now left].
        -- apply IH; [assumption | now right].
Qed.

Lemma trimStart_blank (s : string) :
  trimStart s = "" <-> allChars isWhiteSpace s = true.
Proof.
  induction s as [|c r IH]; simpl; [tauto|].
  destruct (isWhiteSpace c); simpl; [exact IH|].
  split; discriminate.
Qed.

Lemma trimEnd_empty (s : string) : trimEnd s = "" -> allChars isWhiteSpace s = true.
Proof.
  induction s as [|c r IH]; simpl; [reflexivity|].
  destruct (trimEnd r) eqn:E; [|discriminate].
  destruct (isWhiteSpace c); [intros _; now apply IH | discriminate].
Qed.

Lemma trimStart_head (s : string) :
  match trimStart s with
  | "" => True
  | String c _ => isWhiteSpace c = false
  end.
Proof.
  induction s as [|c r IH]; simpl; [exact I|].
  destruct (isWhiteSpace c) eqn:E; [exact IH | exact E].
Qed.

(** [trim] leaves nothing exactly when the string is blank. *)
Lemma trim_blank (s : string) : trim s = "" <-> allChars isWhiteSpace s = true.
Proof.
  unfold trim. split.
  - intros H. apply trimStart_blank.
    pose proof (trimStart_head s) as Hh.
    destruct (trimStart s) as [|c r]; [reflexivity|].
    apply trimEnd_empty in H. simpl in H. rewrite Hh in H. discriminate.
  - intros H. apply trimStart_blank in H. now rewrite H.
Qed.

Lemma trimStart_none (s : string) :
  allChars (fun c => negb (isWhiteSpace c)) s = true -> trimStart s = s.
Proof.
  destruct s as [|c r]; simpl; [reflexivity|].
  destruct (isWhiteSpace c); [discriminate | reflexivity].
Qed.

Lemma trimEnd_none (s : string) :
  allChars (fun c => negb (isWhiteSpace c)) s = true -> trimEnd s = s.
Proof.
  induction s as [|c r IH]; simpl; [reflexivity|].
  intros H. apply andb_prop in H. destruct H as [Hc Hr].
  rewrite (IH Hr). destruct r; [|reflexivity].
  destruct (isWhiteSpace c); [discriminate | reflexivity].
Qed.

(** On a string without whitespace [trim] does nothing. *)
Lemma trim_none (s : string) :
  allChars (fun c => negb (isWhiteSpace c)) s = true -> trim s = s.
Proof. intros H. unfold trim. rewrite (trimStart_none _ H). now apply trimEnd_none. Qed.

Lemma removeAll_clean (cls : ascii -> bool) (s : string) :
  allChars (fun c => negb (cls c)) (removeAll cls s) = true.
Proof.
  induction s as [|c r IH]; simpl; [reflexivity|].
  destruct (cls c) eqn:E; [exact IH|]. simpl. now rewrite E.
Qed.

Lemma removeAll_empty (cls : ascii -> bool) (s : string) :
  removeAll cls s = "" <-> allChars cls s = true.
Proof.
  induction s as [|c r IH]; simpl; [tauto|].
  destruct (cls c); simpl; [exact IH|]. split; discriminate.
Qed.

Lemma removeAll_ext (p q : ascii -> bool) (s : string) :
  (forall c, p c = q c) -> removeAll p s = removeAll q s.
Proof.
  intros H. induction s as [|c r IH]; simpl; [reflexivity|].
  now rewrite H, IH.
Qed.

Lemma allChars_impl (p q : ascii -> bool) (s : string) :
  (forall c, p c = true -> q c = true) -> allChars p s = true -> allChars q s = true.
Proof.
  intros H. induction s as [|c r IH]; simpl; [reflexivity|].
  intros Hp. apply andb_prop in Hp. destruct Hp as [Hc Hr].
  now rewrite (H _ Hc), (IH Hr).
Qed.

Lemma includes_In (l : list string) (x : string) : includes l x = true <-> In x l.
Proof.
  unfold includes. rewrite existsb_exists. split.
  - intros [y [Hin Heq]]. apply String.eqb_eq in Heq. now subst.
  - intros Hin. exists x. split; [assumption | apply String.eqb_refl].
Qed.

Lemma includes_not_In (l : list string) (x : string) : includes l x = false <-> ~ In x l.
Proof.
  rewrite <- includes_In. destruct (includes l x); split; congruence.
Qed.

(* ===================================================================== *)
(** ** Validation of GET /resolve/user/input *)
(* ===================================================================== *)

Lemma normalizeDefaultKey_inr (fallback : string) (d : qval) (dk : string) :
  normalizeDefaultKey fallback d = inr dk <->
  (d = QAbsent /\ dk = fallback)
  \/ (exists s, d = QString s /\ trim s = "" /\ dk = fallback)
  \/ (exists s, d = QString s /\ trim s <> "" /\ dk = toLowerCase (trim s)).
Proof.
  destruct d as [|s|]; simpl; unfold ret, throw.
  - split.
    + intros H. injection H as <-. now left.
    + intros [[_ ->]|[[s [H _]]|[s [H _]]]]; [reflexivity | discriminate | discriminate].
  - rewrite isEmpty_toLowerCase.
    destruct (trim s) as [|c r] eqn:E; simpl; split.
    + intros H. injection H as <-. right. left. now exists s.
    + intros [[H _]|[[s' [H [_ ->]]]|[s' [H [Hne _]]]]]; [discriminate | reflexivity |].
      injection H as <-. congruence.
    + intros H. injection H as <-. right. right. exists s.
      rewrite E. repeat split. discriminate.
    + intros [[H _]|[[s' [H [He _]]]|[s' [H [_ ->]]]]]; [discriminate | |].
      * injection H as <-. congruence.
      * injection H as <-. now rewrite E.
  - split; [discriminate|].
    intros [[H _]|[[s [H _]]|[s [H _]]]]; discriminate.
Qed.

Lemma normalizeDefaultKey_total (fallback : string) (d : qval) :
  d <> QNested -> exists dk, normalizeDefaultKey fallback d = inr dk.
Proof.
  destruct d as [|s|]; simpl; intros H; [eexists; reflexivity | eexists; reflexivity |].
  now contradiction H.
Qed.

Lemma requireString_inr (x : qval) (msg s : string) :
  requireString x msg = inr s <-> x = QString s /\ trim s <> "".
Proof.
  destruct x as [|t|]; simpl; unfold reject, ret.
  - split; [discriminate | intros [H _]; discriminate].
  - destruct t as [|c r]; simpl.
    + split; [discriminate|]. intros [H Hne]. injection H as <-. now contradiction Hne.
    + destruct (trim (String c r)) as [|c' r'] eqn:E; simpl.
      * split; [discriminate|]. intros [H Hne]. injection H as <-. congruence.
      * split.
        -- intros H. injection H as <-. split; [reflexivity|]. rewrite E. discriminate.
        -- intros [H _]. injection H as <-. reflexivity.
  - split; [discriminate | intros [H _]; discriminate].
Qed.

Lemma requireString_inl (x : qval) (msg : string) (o : outcome) :
  requireString x msg = inl o -> o = Json (badRequest msg).
Proof.
  destruct x as [|t|]; simpl; unfold reject, ret; try congruence.
  destruct (isEmpty t || isEmpty (trim t)); congruence.
Qed.

Lemma validate_inr (req : query) (dk raw : string) :
  validate req = inr (dk, raw) <->
  exists inp,
    input req = QString inp /\ trim inp <> "" /\ raw = trim inp
    /\ normalizeDefaultKey "garbage" (defaultkey req) = inr dk
    /\ truthy (validkeys req) || truthy (notallowedkeys req) = true.
Proof.
  unfold validate.
  destruct (normalizeDefaultKey "garbage" (defaultkey req)) as [o|dk'] eqn:Ed; simpl.
  { split; [discriminate|]. intros [inp [_ [_ [_ [H _]]]]]. discriminate. }
  destruct (requireString (input req) "Missing required field: input") as [o|inp] eqn:Ei; simpl.
  { split; [discriminate|]. intros [inp [Hi [Hne _]]].
    assert (H : requireString (input req) "Missing required field: input" = inr inp)
      by (apply requireString_inr; now split).
    congruence. }
  apply requireString_inr in Ei. destruct Ei as [Hi Hne].
  destruct (truthy (validkeys req) || truthy (notallowedkeys req)) eqn:Ek; simpl.
  2:{ split; [discriminate|]. intros [inp' [_ [_ [_ [_ H]]]]]. discriminate. }
  apply isEmpty_false in Hne. rewrite Hne. simpl. unfold ret.
  apply isEmpty_false in Hne.
  split.
  - intros H. injection H as <- <-. exists inp. repeat split; assumption.
  - intros [inp' [Hi' [_ [-> [Hd _]]]]].
    rewrite Hi in Hi'. injection Hi' as <-. injection Hd as <-. reflexivity.
Qed.

(** Which requests get past validation, in terms of the raw parameters. *)
Lemma passesValidation_iff (req : query) :
  passesValidation req = true <->
  defaultkey req <> QNested
  /\ (exists inp, input req = QString inp /\ trim inp <> "")
  /\ truthy (validkeys req) || truthy (notallowedkeys req) = true.
Proof.
  unfold passesValidation. split.
  - destruct (validate req) as [o|[dk raw]] eqn:E; [discriminate|]. intros _.
    apply validate_inr in E. destruct E as [inp [Hi [Hne [_ [Hd Hk]]]]].
    repeat split; [|now exists inp|assumption].
    intros Hn. rewrite Hn in Hd. discriminate.
  - intros [Hd [[inp [Hi Hne]] Hk]].
    destruct (normalizeDefaultKey_total "garbage" _ Hd) as [dk Hdk].
    assert (E : validate req = inr (dk, trim inp)).
    { apply validate_inr. exists inp. repeat split; assumption. }
    now rewrite E.
Qed.

Lemma user_input_response (parse : string -> parsed) (req : query) (dk raw : string) :
  validate req = inr (dk, raw) ->
  resolve_user_input parse req =
  Json (ok (resolvedKey (resolveCountry parse (withPlus raw))
              (parseKeys (notallowedkeys req)) (parseKeys (validkeys req)) dk)).
Proof. unfold resolve_user_input. intros ->. reflexivity. Qed.

(** Whatever the parser does, the resolved country is a non-empty string
    or absent; a raising parser, [undefined] and an invalid number all
    give no country. *)
Lemma resolveCountry_cases (parse : string -> parsed) (raw : string) :
  (parse raw = Raised -> resolveCountry parse raw = None)
  /\ (parse raw = Returned None -> resolveCountry parse raw = None)
  /\ (forall phone, parse raw = Returned (Some phone) -> isValid phone = false ->
        resolveCountry parse raw = None)
  /\ (forall c, resolveCountry parse raw = Some c -> c <> "").
Proof.
  unfold resolveCountry. repeat split.
  - now intros ->.
  - now intros ->.
  - intros phone -> ->. reflexivity.
  - intros c. destruct (parse raw) as [|[phone|]]; try discriminate.
    destruct (isValid phone); try discriminate.
    destruct (country phone) as [k|]; try discriminate.
    destruct (toLowerCase k) eqn:E; simpl; [discriminate|].
    intros H. injection H as <-. discriminate.
Qed.

Lemma failsToParse_no_country (parse : string -> parsed) (raw : string) :
  failsToParse parse raw -> resolveCountry parse raw = None.
Proof.
  destruct (resolveCountry_cases parse raw) as [H1 [H2 [H3 _]]].
  intros [H|[H|[phone [H Hv]]]]; [now apply H1 | now apply H2 | now apply (H3 phone)].
Qed.

(* ===================================================================== *)
(** ** The key resolver *)
(* ===================================================================== *)

(** C1.  A request to GET /resolve/user/input that passes validation is
    answered with status 200 and exactly one token, chosen by strict
    priority: the blocked marker when the resolved country is in the
    blocked set (also when it is in the allowed set as well), else the
    country code when it is in the allowed set, else the default key. *)
Theorem resolved_key_priority (parse : string -> parsed) (req : query) (inp : string) :
  passesValidation req = true ->
  input req = QString inp ->
  let resolved := resolveCountry parse (withPlus (trim inp)) in
  let blocked := parseKeys (notallowedkeys req) in
  let allowed := parseKeys (validkeys req) in
  exists token dk,
    normalizeDefaultKey "garbage" (defaultkey req) = inr dk
    /\ resolve_user_input parse req = Json (ok token)
    /\ (forall c, resolved = Some c -> In c blocked -> token = "not_@llowed")
    /\ (forall c, resolved = Some c -> ~ In c blocked -> In c allowed -> token = c)
    /\ ((forall c, resolved = Some c -> ~ In c blocked /\ ~ In c allowed) -> token = dk).
Proof.
  intros Hv Hi resolved blocked allowed.
  unfold passesValidation in Hv.
  destruct (validate req) as [o|[dk raw]] eqn:E; [discriminate|].
  pose proof (user_input_response parse req dk raw E) as Hr.
  apply validate_inr in E. destruct E as [inp' [Hi' [_ [-> [Hd _]]]]].
  rewrite Hi in Hi'. injection Hi' as <-.
  exists (resolvedKey resolved blocked allowed dk), dk.
  split; [exact Hd|]. split; [exact Hr|].
  unfold resolvedKey. repeat split.
  - intros c -> Hb. apply includes_In in Hb. now rewrite Hb.
  - intros c -> Hb Ha. apply includes_not_In in Hb. apply includes_In in Ha.
    now rewrite Hb, Ha.
  - intros H. destruct resolved as [c|]; [|reflexivity].
    destruct (H c eq_refl) as [Hb Ha].
    apply includes_not_In in Hb. apply includes_not_In in Ha. now rewrite Hb, Ha.
Qed.

Lemma resolved_key_priority_witness :
  resolve_user_input sampleParser
    (userQuery (QString "+923001234567") (QString "pk,us") (QString "in, PK") (QString "xx"))
  = Json (ok "not_@llowed").
Proof.
  destruct (resolved_key_priority sampleParser
              (userQuery (QString "+923001234567") (QString "pk,us")
                 (QString "in, PK") (QString "xx"))
              "+923001234567" eq_refl eq_refl)
    as [token [dk [_ [Hr [Hb _]]]]].
  rewrite Hr. rewrite (Hb "pk" eq_refl); [reflexivity|].
  simpl. right. left. reflexivity.
Defined.

(** C2.  For a request to GET /resolve/user/input that passes validation,
    when the input does not parse to a valid number with a region, or the
    resolved country is in neither set, the message is the supplied
    default key trimmed and lower-cased, and ["garbage"] when the default
    key is absent or nothing is left of it after trimming. *)
Theorem default_key_fallthrough (parse : string -> parsed) (req : query) (inp : string) :
  passesValidation req = true ->
  input req = QString inp ->
  let resolved := resolveCountry parse (withPlus (trim inp)) in
  (failsToParse parse (withPlus (trim inp))
   \/ resolved = None
   \/ exists c, resolved = Some c
        /\ ~ In c (parseKeys (notallowedkeys req))
        /\ ~ In c (parseKeys (validkeys req))) ->
  exists msg,
    resolve_user_input parse req = Json (ok msg)
    /\ (defaultkey req = QAbsent -> msg = "garbage")
    /\ (forall d, defaultkey req = QString d -> trim d = "" -> msg = "garbage")
    /\ (forall d, defaultkey req = QString d -> trim d <> "" ->
          msg = toLowerCase (trim d)).
Proof.
  intros Hv Hi resolved Hres.
  unfold passesValidation in Hv.
  destruct (validate req) as [o|[dk raw]] eqn:E; [discriminate|].
  pose proof (user_input_response parse req dk raw E) as Hr.
  apply validate_inr in E. destruct E as [inp' [Hi' [_ [-> [Hd _]]]]].
  rewrite Hi in Hi'. injection Hi' as <-. fold resolved in Hr.
  assert (Hk : resolvedKey resolved (parseKeys (notallowedkeys req))
                 (parseKeys (validkeys req)) dk = dk).
  { unfold resolvedKey.
    destruct Hres as [Hf|[->|[c [-> [Hb Ha]]]]];
      [unfold resolved; now rewrite (failsToParse_no_country _ _ Hf) | reflexivity |].
    apply includes_not_In in Hb. apply includes_not_In in Ha. now rewrite Hb, Ha. }
  rewrite Hk in Hr. exists dk. split; [exact Hr|].
  apply normalizeDefaultKey_inr in Hd.
  repeat split.
  - intros Ha. destruct Hd as [[_ ->]|[[s [Hs _]]|[s [Hs _]]]]; congruence.
  - intros d Hq He.
    destruct Hd as [[_ ->]|[[s [Hs [_ ->]]]|[s [Hs [Hne _]]]]]; try reflexivity.
    rewrite Hq in Hs. injection Hs as <-. congruence.
  - intros d Hq Hne.
    destruct Hd as [[Ha _]|[[s [Hs [He _]]]|[s [Hs [_ ->]]]]]; congruence.
Qed.

Lemma default_key_fallthrough_witness :
  resolve_user_input sampleParser
    (userQuery (QString "notanumber") (QString "us") QAbsent (QString " XX "))
  = Json (ok "xx").
Proof.
  destruct (default_key_fallthrough sampleParser
              (userQuery (QString "notanumber") (QString "us") QAbsent (QString " XX "))
              "notanumber" eq_refl eq_refl (or_introl (or_intror (or_introl eq_refl))))
    as [msg [Hr [_ [_ Hd]]]].
  rewrite Hr. rewrite (Hd " XX " eq_refl); [reflexivity|].
  vm_compute. discriminate.
Defined.

(* ===================================================================== *)
(** ** Normalisation of whitelist numbers *)
(* ===================================================================== *)

(** The [.trim()] after [.replaceAll] never removes anything: no white
    space is left.  A number normalises to [null] exactly when it has no
    code unit outside the separator class. *)
Lemma normalizeNumber_stripped (num : string) :
  normalizeNumber num =
  if isEmpty (removeAll separator num) then None
  else Some (withPlus (removeAll separator num)).
Proof.
  unfold normalizeNumber.
  assert (Ht : trim (removeAll separator num) = removeAll separator num).
  { apply trim_none.
    apply (allChars_impl (fun c => negb (separator c))); [|apply removeAll_clean].
    intros c Hc. destruct (isWhiteSpace c) eqn:E; [|reflexivity].
    now rewrite (whiteSpace_separator _ E) in Hc. }
  rewrite Ht. destruct num; reflexivity.
Qed.

Lemma withPlus_specCandidate (num : string) :
  specCandidate num = withPlus (removeAll separator num).
Proof.
  unfold specCandidate.
  rewrite (removeAll_ext specSeparator separator num specSeparator_separator).
  destruct (removeAll separator num) as [|c r]; [reflexivity|].
  unfold withPlus.
  destruct c as [[] [] [] [] [] [] [] []]; cbn; reflexivity.
Qed.

Lemma withPlus_length (d : string) : String.length (withPlus d) <= S (String.length d).
Proof. unfold withPlus. destruct (startsWith d "+"); simpl; lia. Qed.

Lemma normalizeNumber_not_blank (num n : string) :
  normalizeNumber num = Some n -> trim num <> "".
Proof.
  rewrite normalizeNumber_stripped.
  destruct (isEmpty (removeAll separator num)) eqn:E; [discriminate|].
  intros _ Ht. apply trim_blank in Ht.
  apply (allChars_impl _ separator _ whiteSpace_separator) in Ht.
  apply removeAll_empty in Ht. rewrite Ht in E. discriminate.
Qed.

Lemma sameValue_Some (n : string) (x : option string) :
  sameValue (Some n) x = true <-> x = Some n.
Proof.
  destruct x as [y|]; simpl.
  - rewrite String.eqb_eq. split; congruence.
  - split; discriminate.
Qed.

Lemma allowedArray_In (nums : string) (x : option string) :
  In x (allowedArray nums) <->
  exists a n, In a (split "," nums) /\ normalizeNumber a = Some n /\ x = Some n.
Proof.
  unfold allowedArray. rewrite filter_In, in_map_iff. split.
  - intros [[a [Ha Hin]] Hx]. destruct x as [n|]; [|discriminate].
    now exists a, n.
  - intros [a [n [Hin [Ha ->]]]]. split; [now exists a | reflexivity].
Qed.

(** Membership in the whitelist is equality of normalised forms. *)
Lemma isAllowed_iff (nums n : string) :
  isAllowed (allowedArray nums) n = true <->
  exists a, In a (split "," nums) /\ normalizeNumber a = Some n.
Proof.
  unfold isAllowed. rewrite existsb_exists. split.
  - intros [x [Hin Hx]]. apply sameValue_Some in Hx. subst x.
    apply allowedArray_In in Hin. destruct Hin as [a [n' [Hin [Ha Hn]]]].
    injection Hn as <-. now exists a.
  - intros [a [Hin Ha]]. exists (Some n). split.
    + apply allowedArray_In. now exists a, n.
    + now apply sameValue_Some.
Qed.

Lemma allowedArray_not_blank (nums : string) :
  allowedArray nums <> [] -> trim nums <> "".
Proof.
  intros Hne Ht.
  destruct (allowedArray nums) as [|x l] eqn:E; [now contradiction Hne|].
  assert (Hin : In x (allowedArray nums)) by (rewrite E; now left).
  apply allowedArray_In in Hin. destruct Hin as [a [n [Hin [Ha _]]]].
  apply trim_blank in Ht.
  apply (split_allChars _ "," nums a Ht) in Hin.
  apply trim_blank in Hin.
  now apply (normalizeNumber_not_blank a n).
Qed.

Lemma requireString_ok (x : qval) (msg s : string) :
  x = QString s -> trim s <> "" -> requireString x msg = inr s.
Proof. intros Hx Hs. apply requireString_inr. now split. Qed.

(** The answer of the whitelist endpoint once every gate is passed. *)
Lemma whitelist_response (req : query) (dk inp nums n : string) :
  normalizeDefaultKey "not_@llowed" (defaultkey req) = inr dk ->
  input req = QString inp ->
  allowednumbers req = QString nums ->
  normalizeNumber inp = Some n ->
  allowedArray nums <> [] ->
  resolve_number_whitelist req =
  Json (ok (if isAllowed (allowedArray nums) n then "@llowed" else dk)).
Proof.
  intros Hd Hi Ha Hn Hne. unfold resolve_number_whitelist.
  rewrite Hd. simpl.
  rewrite (requireString_ok _ _ inp Hi (normalizeNumber_not_blank _ _ Hn)). simpl.
  rewrite (requireString_ok _ _ nums Ha (allowedArray_not_blank _ Hne)). simpl.
  rewrite Hn. simpl.
  destruct (allowedArray nums) as [|x l]; [now contradiction Hne|].
  reflexivity.
Qed.

(** C3.  On GET /resolve/number/whitelist a candidate is normalised by
    removing whitespace, hyphens, backslashes and parentheses and putting
    a plus sign in front when there is none; the input is reported as
    allowed exactly when its normalised form is the normalised form of
    one of the allowed numbers.  ["+1 (415) 555-0100"] and ["14155550100"]
    have the same normalised form and match each other. *)
Theorem whitelist_membership (req : query) (dk inp nums n : string) :
  normalizeDefaultKey "not_@llowed" (defaultkey req) = inr dk ->
  input req = QString inp ->
  allowednumbers req = QString nums ->
  normalizeNumber inp = Some n ->
  n = specCandidate inp
  /\ (forall a m, normalizeNumber a = Some m -> m = specCandidate a)
  /\ (isAllowed (allowedArray nums) n = true <->
      exists a, In a (split "," nums) /\ normalizeNumber a = normalizeNumber inp)
  /\ ((exists a, In a (split "," nums) /\ normalizeNumber a = normalizeNumber inp) ->
      resolve_number_whitelist req = Json (ok "@llowed"))
  /\ (allowedArray nums <> [] ->
      ~ (exists a, In a (split "," nums) /\ normalizeNumber a = normalizeNumber inp) ->
      resolve_number_whitelist req = Json (ok dk))
  /\ normalizeNumber "+1 (415) 555-0100" = Some "+14155550100"
  /\ normalizeNumber "14155550100" = Some "+14155550100".
Proof.
  intros Hd Hi Ha Hn.
  assert (Hspec : forall a m, normalizeNumber a = Some m -> m = specCandidate a).
  { intros a m. rewrite normalizeNumber_stripped, withPlus_specCandidate.
    destruct (isEmpty (removeAll separator a)); congruence. }
  rewrite Hn.
  split; [now apply Hspec|]. split; [exact Hspec|].
  split; [apply isAllowed_iff|].
  split; [|split; [|split; reflexivity]].
  - intros Hex. pose proof Hex as Hex'. apply isAllowed_iff in Hex'.
    assert (Hne : allowedArray nums <> []).
    { destruct Hex as [a [Hin Hna]]. intros E.
      assert (Hx : In (Some n) (allowedArray nums))
        by (apply allowedArray_In; now exists a, n).
      rewrite E in Hx. destruct Hx. }
    rewrite (whitelist_response req dk inp nums n Hd Hi Ha Hn Hne).
    now rewrite Hex'.
  - intros Hne Hnex.
    rewrite (whitelist_response req dk inp nums n Hd Hi Ha Hn Hne).
    destruct (isAllowed (allowedArray nums) n) eqn:E; [|reflexivity].
    apply isAllowed_iff in E. now contradiction Hnex.
Qed.

Lemma whitelist_membership_witness :
  resolve_number_whitelist
    (whitelistQuery (QString "+1 (415) 555-0100") (QString "+923001234567, 14155550100")
       QAbsent) = Json (ok "@llowed")
  /\ resolve_number_whitelist
       (whitelistQuery (QString "14155550100") (QString "+1 (415) 555-0100") QAbsent)
     = Json (ok "@llowed").
Proof.
  split.
  - apply (whitelist_membership
             (whitelistQuery (QString "+1 (415) 555-0100")
                (QString "+923001234567, 14155550100") QAbsent)
             "not_@llowed" "+1 (415) 555-0100" "+923001234567, 14155550100"
             "+14155550100" eq_refl eq_refl eq_refl eq_refl).
    exists " 14155550100". split; [right; left; reflexivity | reflexivity].
  - apply (whitelist_membership
             (whitelistQuery (QString "14155550100") (QString "+1 (415) 555-0100") QAbsent)
             "not_@llowed" "14155550100" "+1 (415) 555-0100"
             "+14155550100" eq_refl eq_refl eq_refl eq_refl).
    exists "+1 (415) 555-0100". split; [left; reflexivity | reflexivity].
Defined.

(* ===================================================================== *)
(** ** The channel prefix *)
(* ===================================================================== *)

Lemma removeAll_none (cls : ascii -> bool) (s : string) :
  allChars (fun c => negb (cls c)) s = true -> removeAll cls s = s.
Proof.
  induction s as [|c r IH]; simpl; [reflexivity|].
  intros H. apply andb_prop in H. destruct H as [Hc Hr].
  apply negb_true_iff in Hc. now rewrite Hc, (IH Hr).
Qed.

Lemma normalizeNumber_whatsapp (n : string) :
  normalizeNumber ("whatsapp:" ++ n) = Some ("+whatsapp:" ++ removeAll separator n).
Proof. rewrite normalizeNumber_stripped. reflexivity. Qed.

(** Only an entry that itself carries the prefix normalises to a form
    that starts with ["+whatsapp:"]. *)
Lemma prefixed_candidate (a d : string) :
  normalizeNumber a = Some ("+whatsapp:" ++ d) -> channelPrefixed a = true.
Proof.
  rewrite normalizeNumber_stripped. unfold channelPrefixed.
  destruct (isEmpty (removeAll separator a)); [discriminate|].
  unfold withPlus.
  destruct (startsWith (removeAll separator a) "+") eqn:E; intros H; injection H as H.
  - rewrite H. reflexivity.
  - rewrite H. reflexivity.
Qed.

Lemma removeAll_allChars (p cls : ascii -> bool) (s : string) :
  allChars p s = true -> allChars p (removeAll cls s) = true.
Proof.
  induction s as [|c r IH]; simpl; [reflexivity|].
  intros H. apply andb_prop in H. destruct H as [Hc Hr].
  destruct (cls c); [now apply IH|]. simpl. now rewrite Hc, (IH Hr).
Qed.

(** An entry without the letter [w], such as a number written with digits,
    a plus sign and separators, does not carry the prefix. *)
Lemma plain_number_not_prefixed (a : string) :
  allChars (fun c => negb (Ascii.eqb c "w")) a = true -> channelPrefixed a = false.
Proof.
  intros H. apply (removeAll_allChars _ separator) in H.
  unfold channelPrefixed.
  destruct (removeAll separator a) as [|c [|c' r]]; simpl in *.
  - reflexivity.
  - apply andb_prop in H. destruct H as [Hc _].
    apply negb_true_iff in Hc. rewrite Hc. simpl. now rewrite andb_false_r.
  - apply andb_prop in H. destruct H as [Hc H].
    apply andb_prop in H. destruct H as [Hc' _].
    apply negb_true_iff in Hc, Hc'. rewrite Hc, Hc'. simpl.
    now rewrite andb_false_r.
Qed.

(** What the whitelist endpoint answers when no allowed number is usable. *)
Lemma whitelist_without_candidates (req : query) (dk nums : string) :
  normalizeDefaultKey "not_@llowed" (defaultkey req) = inr dk ->
  allowednumbers req = QString nums ->
  allowedArray nums = [] ->
  resolve_number_whitelist req =
  Json (badRequest
    match requireString (input req) "Missing required field: input" with
    | inl _ => "Missing required field: input"
    | inr inp =>
        if isEmpty (trim nums) then "Missing required field: allowednumbers"
        else match normalizeNumber inp with
             | None => "Invalid input: empty after normalization"
             | Some _ => "No valid numbers in allowednumbers"
             end
    end).
Proof.
  intros Hd Ha He. unfold resolve_number_whitelist. rewrite Hd. simpl.
  destruct (requireString (input req) "Missing required field: input") as [o|inp] eqn:Ei;
    simpl.
  { apply requireString_inl in Ei. now subst o. }
  rewrite Ha. simpl.
  destruct nums as [|c r]; [reflexivity|]. simpl.
  destruct (isEmpty (trim (String c r))); simpl; [reflexivity|].
  destruct (normalizeNumber inp); simpl; [|reflexivity].
  rewrite He. reflexivity.
Qed.

(** C10.  Normalisation on GET /resolve/number/whitelist keeps a
    ["whatsapp:"] prefix: the input ["whatsapp:<number>"] normalises to
    ["+whatsapp:"] followed by the number (without its separators), which
    is never the normalised form of the number alone, and the input is not
    reported as whitelisted when no allowed number carries the prefix. *)
Theorem channel_prefix_kept (req : query) (n dk nums : string) :
  input req = QString ("whatsapp:" ++ n) ->
  allowednumbers req = QString nums ->
  normalizeDefaultKey "not_@llowed" (defaultkey req) = inr dk ->
  (forall a, In a (split "," nums) -> channelPrefixed a = false) ->
  normalizeNumber ("whatsapp:" ++ n) = Some ("+whatsapp:" ++ removeAll separator n)
  /\ (allChars (fun c => negb (separator c)) n = true ->
      normalizeNumber ("whatsapp:" ++ n) = Some ("+whatsapp:" ++ n))
  /\ normalizeNumber ("whatsapp:" ++ n) <> normalizeNumber n
  /\ isAllowed (allowedArray nums) ("+whatsapp:" ++ removeAll separator n) = false
  /\ (allowedArray nums <> [] -> resolve_number_whitelist req = Json (ok dk))
  /\ (allowedArray nums = [] ->
      exists msg, resolve_number_whitelist req = Json (badRequest msg)).
Proof.
  intros Hi Ha Hd Hfree.
  pose proof (normalizeNumber_whatsapp n) as Hn.
  assert (Hno : isAllowed (allowedArray nums) ("+whatsapp:" ++ removeAll separator n) = false).
  { destruct (isAllowed _ _) eqn:E; [|reflexivity].
    apply isAllowed_iff in E. destruct E as [a [Hin Hna]].
    apply prefixed_candidate in Hna. rewrite (Hfree a Hin) in Hna. discriminate. }
  split; [exact Hn|]. split; [|split; [|split; [exact Hno|split]]].
  - intros Hc. rewrite Hn. now rewrite (removeAll_none _ _ Hc).
  - rewrite Hn, normalizeNumber_stripped.
    destruct (isEmpty (removeAll separator n)); [discriminate|].
    intros H. injection H as H.
    pose proof (withPlus_length (removeAll separator n)) as Hl.
    rewrite <- H in Hl. simpl in Hl. lia.
  - intros Hne.
    rewrite (whitelist_response req dk _ nums _ Hd Hi Ha Hn Hne).
    now rewrite Hno.
  - intros He. eexists. apply (whitelist_without_candidates req dk nums Hd Ha He).
Qed.

Lemma channel_prefix_kept_witness :
  resolve_number_whitelist
    (whitelistQuery (QString "whatsapp:+14155550100")
       (QString "+14155550100,+923001234567") (QString "Blocked"))
  = Json (ok "blocked").
Proof.
  apply (channel_prefix_kept
           (whitelistQuery (QString "whatsapp:+14155550100")
              (QString "+14155550100,+923001234567") (QString "Blocked"))
           "+14155550100" "blocked" "+14155550100,+923001234567"
           eq_refl eq_refl eq_refl).
  - intros a [<-|[<-|[]]]; reflexivity.
  - vm_compute. discriminate.
Defined.

(* ===================================================================== *)
(** ** Failures of GET /resolve/number/whitelist *)
(* ===================================================================== *)

(** C7 as stated fails: a blank [allowednumbers] yields no candidate, and
    the request is turned down as a missing field, not as a list without
    valid numbers. *)
Lemma blank_allowednumbers_is_missing_field :
  allowedArray " " = []
  /\ resolve_number_whitelist (whitelistQuery (QString "14155550100") (QString " ") QAbsent)
     = Json (badRequest "Missing required field: allowednumbers")
  /\ resolve_number_whitelist (whitelistQuery (QString "14155550100") (QString " ") QAbsent)
     <> Json (badRequest "No valid numbers in allowednumbers").
Proof. repeat split. discriminate. Qed.

(** C7, amended.  When the default key is absent or a string and the
    allowed numbers yield no candidate, the whitelist endpoint answers
    400 and gives no resolution result.  The message is that of the first
    gate that fails: the input, the blank [allowednumbers], the input that
    normalises to nothing, and only then the list without valid numbers. *)
Theorem empty_whitelist_rejected (req : query) (nums : string) :
  defaultkey req <> QNested ->
  allowednumbers req = QString nums ->
  allowedArray nums = [] ->
  exists msg,
    resolve_number_whitelist req = Json (badRequest msg)
    /\ (forall inp n, input req = QString inp -> normalizeNumber inp = Some n ->
          trim nums <> "" -> msg = "No valid numbers in allowednumbers")
    /\ ((forall inp, input req = QString inp -> trim inp = "") ->
          msg = "Missing required field: input")
    /\ (forall inp, input req = QString inp -> trim inp <> "" -> trim nums = "" ->
          msg = "Missing required field: allowednumbers")
    /\ (forall inp, input req = QString inp -> trim inp <> "" -> trim nums <> "" ->
          normalizeNumber inp = None -> msg = "Invalid input: empty after normalization").
Proof.
  intros Hd Ha He.
  destruct (normalizeDefaultKey_total "not_@llowed" _ Hd) as [dk Hdk].
  eexists. split; [apply (whitelist_without_candidates req dk nums Hdk Ha He)|].
  repeat split.
  - intros inp n Hi Hn Hne.
    rewrite (requireString_ok _ _ inp Hi (normalizeNumber_not_blank _ _ Hn)).
    apply isEmpty_false in Hne. now rewrite Hne, Hn.
  - intros H.
    destruct (requireString (input req) "Missing required field: input") as [o|inp] eqn:E;
      [reflexivity|].
    apply requireString_inr in E. destruct E as [Hi Hne].
    now contradiction Hne; apply H.
  - intros inp Hi Hne Hb. rewrite (requireString_ok _ _ inp Hi Hne).
    now rewrite Hb.
  - intros inp Hi Hne Hnb Hn. rewrite (requireString_ok _ _ inp Hi Hne).
    apply isEmpty_false in Hnb. now rewrite Hnb, Hn.
Qed.

Lemma empty_whitelist_rejected_witness :
  resolve_number_whitelist (whitelistQuery (QString "14155550100") (QString "-,()") QAbsent)
  = Json (badRequest "No valid numbers in allowednumbers").
Proof.
  destruct (empty_whitelist_rejected
              (whitelistQuery (QString "14155550100") (QString "-,()") QAbsent) "-,()")
    as [msg [Hr [Hm _]]].
  - discriminate.
  - reflexivity.
  - reflexivity.
  - rewrite Hr. rewrite (Hm "14155550100" "+14155550100" eq_refl eq_refl); [reflexivity|].
    vm_compute. discriminate.
Defined.

(** C8 as stated fails: without a default key the request succeeds. *)
Lemma absent_default_key_succeeds :
  defaultkey (whitelistQuery (QString "+14155550100") (QString "+14155550100") QAbsent)
  = QAbsent
  /\ resolve_number_whitelist
       (whitelistQuery (QString "+14155550100") (QString "+14155550100") QAbsent)
     = Json (ok "@llowed")
  /\ resolve_number_whitelist
       (whitelistQuery (QString "+14155550100") (QString "+923001234567") (QString "  "))
     = Json (ok "not_@llowed")
  /\ status (ok "@llowed") = 200.
Proof. repeat split. Qed.

(** C8, amended.  On GET /resolve/number/whitelist a default key that is
    absent or empty after trimming is replaced by ["not_@llowed"]; the
    request is answered as if that key had been supplied, and succeeds
    whenever the input and the allowed numbers are usable. *)
Theorem missing_default_key_falls_back (req : query) :
  defaultKeyMissing (defaultkey req) ->
  resolve_number_whitelist req
  = resolve_number_whitelist (withDefaultKey req (QString "not_@llowed"))
  /\ forall inp nums n,
       input req = QString inp ->
       allowednumbers req = QString nums ->
       normalizeNumber inp = Some n ->
       allowedArray nums <> [] ->
       resolve_number_whitelist req =
       Json (ok (if isAllowed (allowedArray nums) n then "@llowed" else "not_@llowed")).
Proof.
  intros Hm.
  assert (Hd : normalizeDefaultKey "not_@llowed" (defaultkey req) = inr "not_@llowed").
  { apply normalizeDefaultKey_inr.
    destruct Hm as [->|[s [-> Hs]]]; [now left | right; left; now exists s]. }
  split.
  - unfold resolve_number_whitelist. rewrite Hd. reflexivity.
  - intros inp nums n Hi Ha Hn Hne.
    exact (whitelist_response req _ inp nums n Hd Hi Ha Hn Hne).
Qed.

Lemma missing_default_key_falls_back_witness :
  resolve_number_whitelist
    (whitelistQuery (QString "+14155550100") (QString "+923001234567") (QString "  "))
  = Json (ok "not_@llowed").
Proof.
  refine (proj2 (missing_default_key_falls_back
                   (whitelistQuery (QString "+14155550100") (QString "+923001234567")
                      (QString "  ")) _)
            "+14155550100" "+923001234567" "+14155550100" eq_refl eq_refl eq_refl _).
  - right. exists "  ". split; reflexivity.
  - vm_compute. discriminate.
Defined.

(* ===================================================================== *)
(** ** Failures of GET /resolve/user/input *)
(* ===================================================================== *)

(** Once validation is passed the answer is a 200, whatever the parser
    does: it may raise, return nothing or return an invalid number. *)
Lemma validated_request_answered (parse : string -> parsed) (req : query) :
  passesValidation req = true ->
  exists msg, resolve_user_input parse req = Json (ok msg).
Proof.
  unfold passesValidation.
  destruct (validate req) as [o|[dk raw]] eqn:E; [discriminate|]. intros _.
  eexists. exact (user_input_response parse req dk raw E).
Qed.

(** A request turned down by validation never reaches the parser, and is
    answered with a 400 unless the default key is an array or object. *)
Lemma rejected_before_resolution (parse : string -> parsed) (req : query) :
  passesValidation req = false ->
  resolve_user_input parse req = resolve_user_input (fun _ => Raised) req
  /\ (defaultkey req <> QNested ->
      exists msg, resolve_user_input parse req = Json (badRequest msg)).
Proof.
  unfold passesValidation, resolve_user_input.
  destruct (validate req) as [o|v] eqn:E; [|discriminate]. intros _.
  split; [reflexivity|]. intros Hd. simpl.
  destruct (normalizeDefaultKey_total "garbage" _ Hd) as [dk Hdk].
  unfold validate in E. rewrite Hdk in E. simpl in E.
  destruct (requireString (input req) "Missing required field: input") as [o'|inp] eqn:Ei;
    simpl in E.
  { apply requireString_inl in Ei. injection E as <-. subst o'. now eexists. }
  destruct (truthy (validkeys req) || truthy (notallowedkeys req)); simpl in E.
  - destruct (isEmpty (trim inp)); simpl in E; [|discriminate].
    injection E as <-. now eexists.
  - injection E as <-. now eexists.
Qed.

(** A missing, non-string or blank input is turned down with the message
    of the specification when the default key is absent or a string. *)
Lemma missing_input_rejected (parse : string -> parsed) (req : query) :
  defaultkey req <> QNested ->
  (input req = QAbsent \/ input req = QNested
   \/ exists s, input req = QString s /\ trim s = "") ->
  resolve_user_input parse req = Json (badRequest "Missing required field: input").
Proof.
  intros Hd Hi. unfold resolve_user_input, validate.
  destruct (normalizeDefaultKey_total "garbage" _ Hd) as [dk ->]. simpl.
  destruct Hi as [->|[->|[s [-> Hs]]]]; try reflexivity.
  simpl. rewrite Hs. now rewrite orb_true_r.
Qed.

(** C4 at the failing request: input and key set are fine, [defaultkey]
    is given twice.  [defaultkey?.trim()] raises outside the [try] block,
    so the handler sends neither the 200 nor a 400. *)
Theorem repeated_default_key_escapes (parse : string -> parsed) :
  resolve_user_input parse
    (userQuery (QString "+14155550100") (QString "us") QAbsent QNested) = TypeError
  /\ forall r,
       resolve_user_input parse
         (userQuery (QString "+14155550100") (QString "us") QAbsent QNested) <> Json r.
Proof. split; [reflexivity | discriminate]. Qed.

(** C5 at the failing request: no input, [defaultkey] given twice.  The
    handler raises on the default key before it looks at the input, so
    the 400 with "Missing required field: input" is not sent. *)
Theorem missing_input_not_reported (parse : string -> parsed) :
  input (userQuery QAbsent (QString "us") QAbsent QNested) = QAbsent
  /\ resolve_user_input parse (userQuery QAbsent (QString "us") QAbsent QNested)
     = TypeError
  /\ resolve_user_input parse (userQuery QAbsent (QString "us") QAbsent QNested)
     <> Json (badRequest "Missing required field: input").
Proof. repeat split. discriminate. Qed.

(* ===================================================================== *)
(** ** The key sets behind the resolver *)
(* ===================================================================== *)

Lemma parseKeys_In (s k' : string) :
  In k' (parseKeys (QString s)) <->
  exists k, In k (split "," s) /\ trim k <> "" /\ k' = toLowerCase (trim k).
Proof.
  unfold parseKeys. destruct s as [|c r].
  - simpl. split; [intros []|].
    intros [k [[<-|[]] [H _]]]. now contradiction H.
  - unfold isEmpty at 1. rewrite filter_In, in_map_iff. split.
    + intros [[k [<- Hin]] Hl]. exists k. repeat split; [assumption|].
      rewrite isEmpty_length, isEmpty_toLowerCase in Hl.
      apply negb_true_iff, isEmpty_false in Hl. exact Hl.
    + intros [k [Hin [Hne ->]]]. split; [now exists k|].
      rewrite isEmpty_length, isEmpty_toLowerCase.
      apply negb_true_iff, isEmpty_false. exact Hne.
Qed.

(** A parsed key set is non-empty exactly when the raw value is a string
    with a segment of which something is left after trimming. *)
Lemma parseKeys_not_nil (keys : qval) :
  parseKeys keys <> [] <->
  exists s k, keys = QString s /\ In k (split "," s) /\ trim k <> "".
Proof.
  split.
  - intros Hne. destruct keys as [|s|]; try (now contradiction Hne).
    destruct (parseKeys (QString s)) as [|k' l] eqn:E; [now contradiction Hne|].
    assert (Hin : In k' (parseKeys (QString s))) by (rewrite E; now left).
    apply parseKeys_In in Hin. destruct Hin as [k [Hin [Hk _]]].
    now exists s, k.
  - intros [s [k [-> [Hin Hk]]]] E.
    assert (H : In (toLowerCase (trim k)) (parseKeys (QString s)))
      by (apply parseKeys_In; now exists k).
    rewrite E in H. destruct H.
Qed.

(** C6 as stated fails: [validkeys=,] is a non-empty raw string, the
    request passes validation, and both parsed sets are empty. *)
Lemma resolver_runs_on_empty_sets :
  passesValidation commaOnly = true
  /\ truthy (validkeys commaOnly) = true
  /\ parseKeys (validkeys commaOnly) = []
  /\ parseKeys (notallowedkeys commaOnly) = []
  /\ resolve_user_input sampleParser commaOnly = Json (ok "garbage").
Proof. repeat split. Qed.

(** C6, amended.  A request that passes validation has a non-empty raw
    [validkeys] or [notallowedkeys], and the key resolver runs on the two
    parsed sets: the response is the 200 with the key it resolves from
    them.  One of the parsed sets is non-empty exactly when one of the two
    parameters is a string with a comma-separated segment that is not
    blank.  Otherwise the resolver runs with both parsed sets empty, and
    the response is the 200 with the default key, whatever the parser
    finds. *)
Theorem key_sets_after_validation (parse : string -> parsed) (req : query) :
  passesValidation req = true ->
  (truthy (validkeys req) = true \/ truthy (notallowedkeys req) = true)
  /\ (exists inp dk,
        input req = QString inp
        /\ normalizeDefaultKey "garbage" (defaultkey req) = inr dk
        /\ resolve_user_input parse req
           = Json (ok (resolvedKey (resolveCountry parse (withPlus (trim inp)))
                         (parseKeys (notallowedkeys req))
                         (parseKeys (validkeys req)) dk))
        /\ (parseKeys (validkeys req) = [] -> parseKeys (notallowedkeys req) = [] ->
            resolve_user_input parse req = Json (ok dk)))
  /\ ((parseKeys (validkeys req) <> [] \/ parseKeys (notallowedkeys req) <> [])
      <->
      exists s k, (validkeys req = QString s \/ notallowedkeys req = QString s)
                  /\ In k (split "," s) /\ trim k <> "").
Proof.
  intros Hv. pose proof Hv as Hp.
  apply passesValidation_iff in Hp. destruct Hp as [_ [_ Hk]].
  split; [now apply orb_prop|]. split.
  - unfold passesValidation in Hv.
    destruct (validate req) as [o|[dk raw]] eqn:E; [discriminate|].
    pose proof (user_input_response parse req dk raw E) as Hr.
    apply validate_inr in E. destruct E as [inp [Hi [_ [-> [Hd _]]]]].
    exists inp, dk. repeat split; try assumption.
    intros Ea Eb. rewrite Hr, Ea, Eb. unfold resolvedKey.
    now destruct (resolveCountry parse (withPlus (trim inp))).
  - split.
    + intros [H|H]; apply parseKeys_not_nil in H; destruct H as [s [k [Hs [Hin Hne]]]];
        exists s, k; tauto.
    + intros [s [k [[Hs|Hs] [Hin Hne]]]]; [left | right];
        apply parseKeys_not_nil; now exists s, k.
Qed.

Lemma key_sets_after_validation_witness :
  resolve_user_input sampleParser
    (userQuery (QString "+14155550100") (QString " , ") (QString ",") (QString "None"))
  = Json (ok "none").
Proof.
  destruct (key_sets_after_validation sampleParser
              (userQuery (QString "+14155550100") (QString " , ") (QString ",")
                 (QString "None")) eq_refl)
    as [_ [[inp [dk [_ [Hd [_ Hempty]]]]] _]].
  injection Hd as <-. apply Hempty; reflexivity.
Defined.

(* ===================================================================== *)
(** ** Letter case *)
(* ===================================================================== *)









(* ===================================================================== *)
(** ** More on trimming and splitting *)
(* ===================================================================== *)

Lemma trimEnd_idem (s : string) : trimEnd (trimEnd s) = trimEnd s.
Proof.
  induction s as [|c r IH]; simpl; [reflexivity|].
  destruct (trimEnd r) as [|c' r'] eqn:E.
  - destruct (isWhiteSpace c) eqn:W; simpl; [reflexivity|]. now rewrite W.
  - simpl. simpl in IH. now rewrite IH.
Qed.

Lemma trimStart_trimEnd (s : string) : trimStart (trimEnd (trimStart s)) = trimEnd (trimStart s).
Proof.
  pose proof (trimStart_head s) as H.
  destruct (trimStart s) as [|c r]; [reflexivity|].
  simpl. destruct (trimEnd r); simpl; rewrite H; simpl; now rewrite ?H.
Qed.

(** Trimming twice changes nothing. *)
Lemma trim_idem (s : string) : trim (trim s) = trim s.
Proof.
  unfold trim at 1. unfold trim at 1.
  rewrite trimStart_trimEnd. apply trimEnd_idem.
Qed.

Lemma trim_fixed_trimEnd (s : string) : trim s = s -> trimEnd s = s.
Proof. intros H. rewrite <- H. unfold trim. apply trimEnd_idem. Qed.

Lemma startsWith_withPlus (s : string) : startsWith (withPlus s) "+" = true.
Proof.
  unfold withPlus. destruct (startsWith s "+") eqn:E; [exact E | reflexivity].
Qed.

Lemma withPlus_idem (s : string) : withPlus (withPlus s) = withPlus s.
Proof. unfold withPlus at 1. now rewrite startsWith_withPlus. Qed.

Lemma withPlus_not_empty (s : string) : withPlus s <> "".
Proof.
  unfold withPlus. destruct s as [|c r]; [discriminate|].
  destruct (startsWith (String c r) "+"); discriminate.
Qed.

(** Putting the plus sign in front of a trimmed string keeps it trimmed. *)
Lemma trim_withPlus (s : string) : trim s = s -> trim (withPlus s) = withPlus s.
Proof.
  intros H. unfold withPlus. destruct (startsWith s "+"); [exact H|].
  apply trim_fixed_trimEnd in H.
  unfold trim. simpl. rewrite H. destruct s; reflexivity.
Qed.

Lemma trimStart_allChars (p : ascii -> bool) (s : string) :
  allChars p s = true -> allChars p (trimStart s) = true.
Proof.
  induction s as [|c r IH]; simpl; [reflexivity|].
  intros H. destruct (isWhiteSpace c); [|exact H].
  apply andb_prop in H. now apply IH.
Qed.

Lemma trimEnd_allChars (p : ascii -> bool) (s : string) :
  allChars p s = true -> allChars p (trimEnd s) = true.
Proof.
  induction s as [|c r IH]; simpl; [reflexivity|].
  intros H. apply andb_prop in H. destruct H as [Hc Hr].
  specialize (IH Hr). destruct (trimEnd r) as [|c' r'].
  - destruct (isWhiteSpace c); simpl; [reflexivity|]. now rewrite Hc.
  - change (p c && allChars p (String c' r') = true). now rewrite Hc, IH.
Qed.

Lemma trim_allChars (p : ascii -> bool) (s : string) :
  allChars p s = true -> allChars p (trim s) = true.
Proof. intros H. unfold trim. now apply trimEnd_allChars, trimStart_allChars. Qed.

Lemma toLowerCase_notComma (s : string) :
  allChars notComma s = true -> allChars notComma (toLowerCase s) = true.
Proof.
  induction s as [|c r IH]; simpl; [reflexivity|].
  intros H. apply andb_prop in H. destruct H as [Hc Hr].
  unfold notComma in *. now rewrite comma_toLowerChar, Hc, (IH Hr).
Qed.

(** No segment holds the separator. *)
Lemma split_segments_clean (sep : ascii) (s a : string) :
  In a (split sep s) -> allChars (fun c => negb (Ascii.eqb c sep)) a = true.
Proof.
  revert a. induction s as [|c r IH]; simpl; intros a Hin.
  - destruct Hin as [<-|[]]. reflexivity.
  - destruct (Ascii.eqb c sep) eqn:E.
    + destruct Hin as [<-|Hin]; [reflexivity | now apply IH].
    + destruct (split sep r) as [|h t] eqn:Es.
      * destruct Hin as [<-|[]]. simpl. now rewrite E.
      * destruct Hin as [<-|Hin].
        -- simpl. rewrite E. apply IH. now left.
        -- apply IH. now right.
Qed.

(** Splitting at a comma that joins two strings splits each of them. *)
Lemma split_app (sep : ascii) (s t : string) :
  split sep (s ++ String sep t) = (split sep s ++ split sep t)%list.
Proof.
  induction s as [|c r IH]; simpl.
  - now rewrite Ascii.eqb_refl.
  - destruct (Ascii.eqb c sep); [now rewrite IH|].
    rewrite IH. pose proof (split_not_nil sep r) as Hne.
    destruct (split sep r); [now contradiction Hne | reflexivity].
Qed.

Lemma not_blank_with_comma (s t : string) : trim (s ++ String "," t) <> "".
Proof.
  intros H. apply trim_blank in H.
  induction s as [|c r IH]; simpl in H.
  - discriminate.
  - apply andb_prop in H. now apply IH.
Qed.

(* ===================================================================== *)
(** ** The parsed keys *)
(* ===================================================================== *)

(** X1.  Every key that [parseKeys] hands on is non-empty, trimmed,
    lower-case and free of commas. *)
Theorem parsed_keys_are_tidy (keys : qval) (k : string) :
  In k (parseKeys keys) ->
  k <> "" /\ trim k = k /\ toLowerCase k = k /\ allChars notComma k = true.
Proof.
  destruct keys as [|s|]; simpl; try (intros []).
  intros Hin. apply parseKeys_In in Hin. destruct Hin as [a [Hin [Hne ->]]].
  repeat split.
  - intros H. apply isEmpty_true in H. rewrite isEmpty_toLowerCase in H.
    apply isEmpty_true in H. contradiction.
  - now rewrite <- trim_toLowerCase, trim_idem.
  - apply toLowerCase_idem.
  - apply toLowerCase_notComma, trim_allChars.
    exact (split_segments_clean "," s a Hin).
Qed.

Lemma parsed_keys_are_tidy_witness :
  trim "ca" = "ca" /\ toLowerCase "ca" = "ca".
Proof.
  destruct (parsed_keys_are_tidy (QString " US ,, Ca ") "ca") as [_ [Ht [Hl _]]].
  - simpl. right. left. reflexivity.
  - split; assumption.
Defined.

Lemma parseKeys_filter (u : string) :
  parseKeys (QString u)
  = filter (fun k => (0 <? String.length k)%nat)
      (map (fun k => toLowerCase (trim k)) (split "," u)).
Proof. destruct u; reflexivity. Qed.

Lemma parseKeys_app (s t : string) :
  parseKeys (QString (s ++ String "," t))
  = (parseKeys (QString s) ++ parseKeys (QString t))%list.
Proof.
  rewrite (parseKeys_filter (s ++ String "," t)), split_app, map_app, filter_app.
  now rewrite <- !parseKeys_filter.
Qed.

Lemma append_empty (s : string) : s ++ "" = s.
Proof. induction s as [|c r IH]; simpl; [reflexivity | now rewrite IH]. Qed.

(** X2.  Joining two key lists with a comma concatenates the parsed keys;
    a leading or a trailing comma adds no key. *)
Theorem parsed_keys_concatenate (s t : string) :
  parseKeys (QString (s ++ "," ++ t))
  = (parseKeys (QString s) ++ parseKeys (QString t))%list
  /\ parseKeys (QString ("," ++ s)) = parseKeys (QString s)
  /\ parseKeys (QString (s ++ ",")) = parseKeys (QString s).
Proof.
  split; [apply parseKeys_app|]. split.
  - exact (parseKeys_app "" s).
  - rewrite (parseKeys_app s ""). apply app_nil_r.
Qed.

(* ===================================================================== *)
(** ** The normalised number *)
(* ===================================================================== *)

Lemma withPlus_clean (d : string) :
  allChars notSeparator d = true -> allChars notSeparator (withPlus d) = true.
Proof.
  intros H. unfold withPlus. destruct (startsWith d "+"); [exact H|].
  simpl. exact H.
Qed.

(** X3.  A normalised number starts with a plus sign, holds none of the
    characters the normalisation removes, and is its own normal form. *)
Theorem normalized_number_is_canonical (num m : string) :
  normalizeNumber num = Some m ->
  startsWith m "+" = true
  /\ allChars notSeparator m = true
  /\ normalizeNumber m = Some m.
Proof.
  rewrite normalizeNumber_stripped.
  destruct (isEmpty (removeAll separator num)) eqn:E; [discriminate|].
  intros H. injection H as <-.
  assert (Hc : allChars notSeparator (withPlus (removeAll separator num)) = true)
    by apply withPlus_clean, removeAll_clean.
  split; [apply startsWith_withPlus|]. split; [exact Hc|].
  rewrite normalizeNumber_stripped, (removeAll_none _ _ Hc), withPlus_idem.
  pose proof (withPlus_not_empty (removeAll separator num)) as Hne.
  apply isEmpty_false in Hne. now rewrite Hne.
Qed.

Lemma normalized_number_is_canonical_witness :
  normalizeNumber "+14155550100" = Some "+14155550100".
Proof.
  exact (proj2 (proj2 (normalized_number_is_canonical
                         " 1 (415) 555-0100" "+14155550100" eq_refl))).
Defined.

(** A number normalises to nothing exactly when it consists of
    whitespace, hyphens, backslashes and parentheses only; the empty
    string is the first of these. *)
Lemma normalized_number_null_iff (num : string) :
  normalizeNumber num = None <-> allChars separator num = true.
Proof.
  rewrite normalizeNumber_stripped, <- removeAll_empty.
  destruct (removeAll separator num); simpl; split; congruence.
Qed.

(* ===================================================================== *)
(** ** Outcomes of GET /resolve/user/input *)
(* ===================================================================== *)

Lemma usable_requireString (x : qval) (msg : string) :
  usable x -> exists s, x = QString s /\ trim s <> "" /\ requireString x msg = inr s.
Proof.
  intros [s [Hx Hs]]. exists s. repeat split; try assumption.
  now apply requireString_ok.
Qed.

Lemma unusable_requireString (x : qval) (msg : string) :
  ~ usable x -> requireString x msg = inl (Json (badRequest msg)).
Proof.
  intros Hn. destruct (requireString x msg) as [o|s] eqn:E.
  - apply requireString_inl in E. now subst o.
  - apply requireString_inr in E. destruct E as [Hx Hs].
    contradiction Hn. now exists s.
Qed.

Lemma validate_inl (req : query) (o : outcome) :
  validate req = inl o ->
  (o = TypeError /\ defaultkey req = QNested)
  \/ (o = Json (badRequest "Missing required field: input")
      /\ defaultkey req <> QNested /\ ~ usable (input req))
  \/ (o = Json (badRequest "At least one of validkeys or notallowedkeys is required")
      /\ defaultkey req <> QNested /\ usable (input req)
      /\ truthy (validkeys req) = false /\ truthy (notallowedkeys req) = false).
Proof.
  unfold validate.
  destruct (defaultkey req) as [|d|] eqn:Ed; simpl;
    try (intros H; injection H as <-; now left).
  all: destruct (requireString (input req) "Missing required field: input")
         as [o'|inp] eqn:Ei; simpl.
  all: try (intros H; injection H as <-; right; left;
            pose proof (requireString_inl _ _ _ Ei) as ->;
            repeat split; [discriminate|];
            intros [s [Hx Hs]];
            rewrite (requireString_ok _ "Missing required field: input" s Hx Hs) in Ei;
            discriminate).
  all: apply requireString_inr in Ei; destruct Ei as [Hi Hne].
  all: destruct (truthy (validkeys req)) eqn:Ev;
       destruct (truthy (notallowedkeys req)) eqn:En; simpl.
  all: try (apply isEmpty_false in Hne; rewrite Hne; simpl; discriminate).
  all: intros H; injection H as <-; right; right;
       repeat split; try discriminate; now exists inp.
Qed.

(** X4.  GET /resolve/user/input ends in one of four ways, each fixed by
    the raw parameters: a [TypeError] when [defaultkey] is an array or
    object; else the 400 for the input when it is not a non-blank string;
    else the 400 for the keys when [validkeys] and [notallowedkeys] are
    both missing or empty; else a 200.  The 400 "Invalid input: empty
    after normalization" of lines 53 to 63 is never sent. *)
Theorem user_input_outcomes (parse : string -> parsed) (req : query) :
  ((defaultkey req = QNested /\ resolve_user_input parse req = TypeError)
   \/ (defaultkey req <> QNested /\ ~ usable (input req)
       /\ resolve_user_input parse req
          = Json (badRequest "Missing required field: input"))
   \/ (defaultkey req <> QNested /\ usable (input req)
       /\ truthy (validkeys req) = false /\ truthy (notallowedkeys req) = false
       /\ resolve_user_input parse req
          = Json (badRequest "At least one of validkeys or notallowedkeys is required"))
   \/ (defaultkey req <> QNested /\ usable (input req)
       /\ truthy (validkeys req) || truthy (notallowedkeys req) = true
       /\ exists msg, resolve_user_input parse req = Json (ok msg)))
  /\ resolve_user_input parse req
     <> Json (badRequest "Invalid input: empty after normalization").
Proof.
  assert (Hr : forall o, validate req = inl o -> resolve_user_input parse req = o).
  { intros o E. unfold resolve_user_input. now rewrite E. }
  destruct (validate req) as [o|[dk raw]] eqn:E.
  - rewrite (Hr o eq_refl).
    destruct (validate_inl req o E)
      as [[-> Hd]|[[-> [Hd Hi]]|[-> [Hd [Hi [Hv Hn]]]]]].
    + split; [now left | discriminate].
    + split; [right; left; now repeat split | discriminate].
    + split; [right; right; left; now repeat split | discriminate].
  - rewrite (user_input_response parse req dk raw E).
    split; [|discriminate].
    assert (Hp : passesValidation req = true)
      by (unfold passesValidation; now rewrite E).
    apply passesValidation_iff in Hp. destruct Hp as [Hd [Hi Hk]].
    right; right; right. repeat split; try assumption. now eexists.
Qed.

Lemma resolvedKey_vocabulary (c : option string) (blocked allowed : list string)
    (dk : string) :
  resolvedKey c blocked allowed dk = "not_@llowed"
  \/ (c = Some (resolvedKey c blocked allowed dk)
      /\ In (resolvedKey c blocked allowed dk) allowed)
  \/ resolvedKey c blocked allowed dk = dk.
Proof.
  unfold resolvedKey. destruct c as [k|]; [|now right; right].
  destruct (includes blocked k); [now left|].
  destruct (includes allowed k) eqn:E; [|now right; right].
  right; left. split; [reflexivity | now apply includes_In].
Qed.

Lemma normalizeDefaultKey_not_empty (fallback : string) (d : qval) (dk : string) :
  fallback <> "" -> normalizeDefaultKey fallback d = inr dk -> dk <> "".
Proof.
  intros Hf H. apply normalizeDefaultKey_inr in H.
  destruct H as [[_ ->]|[[s [_ [_ ->]]]|[s [_ [Hne ->]]]]]; try assumption.
  intros H. apply isEmpty_true in H. rewrite isEmpty_toLowerCase in H.
  apply isEmpty_true in H. contradiction.
Qed.

(** X5.  The message of a 200 from GET /resolve/user/input is never
    empty, and it is the blocked marker, one of the parsed [validkeys], or
    the normalised default key: no other text can come back. *)
Theorem user_input_vocabulary (parse : string -> parsed) (req : query) (msg : string) :
  resolve_user_input parse req = Json (ok msg) ->
  msg <> ""
  /\ exists dk,
       normalizeDefaultKey "garbage" (defaultkey req) = inr dk
       /\ (msg = "not_@llowed" \/ In msg (parseKeys (validkeys req)) \/ msg = dk).
Proof.
  intros Hr. destruct (validate req) as [o|[dk raw]] eqn:E.
  - assert (Ho : resolve_user_input parse req = o)
      by (unfold resolve_user_input; now rewrite E).
    rewrite Hr in Ho. subst o.
    destruct (validate_inl req _ E) as [[H _]|[[H _]|[H _]]]; discriminate.
  - rewrite (user_input_response parse req dk raw E) in Hr.
    injection Hr as <-.
    apply validate_inr in E. destruct E as [inp [_ [_ [_ [Hd _]]]]].
    pose proof (normalizeDefaultKey_not_empty "garbage" _ dk ltac:(discriminate) Hd) as Hne.
    destruct (resolvedKey_vocabulary (resolveCountry parse (withPlus raw))
                (parseKeys (notallowedkeys req)) (parseKeys (validkeys req)) dk)
      as [H|[[Hc Hin]|H]].
    + split; [rewrite H; discriminate|]. exists dk. split; [exact Hd | now left].
    + split.
      * exact (proj2 (proj2 (proj2 (resolveCountry_cases parse (withPlus raw)))) _ Hc).
      * exists dk. split; [exact Hd | right; now left].
    + split; [now rewrite H|]. exists dk. split; [exact Hd | right; now right].
Qed.

Lemma user_input_vocabulary_witness :
  "us" <> ""
  /\ exists dk,
       normalizeDefaultKey "garbage" (QString "None") = inr dk
       /\ ("us" = "not_@llowed" \/ In "us" (parseKeys (QString "US,ca")) \/ "us" = dk).
Proof.
  exact (user_input_vocabulary sampleParser
           (userQuery (QString "+14155550100") (QString "US,ca") (QString "Pk")
              (QString "None")) "us" eq_refl).
Defined.

(* ===================================================================== *)
(** ** What GET /resolve/user/input reads of its parameters *)
(* ===================================================================== *)

Lemma user_input_same_number (parse : string -> parsed) (req : query) (a b : string) :
  input req = QString a -> trim a <> "" -> trim b <> "" ->
  withPlus (trim a) = withPlus (trim b) ->
  resolve_user_input parse (withInput req (QString b)) = resolve_user_input parse req.
Proof.
  intros Hi Ha Hb Hab. unfold resolve_user_input, validate, withInput.
  cbn [input validkeys notallowedkeys defaultkey]. rewrite Hi.
  destruct (normalizeDefaultKey "garbage" (defaultkey req)) as [o|dk]; [reflexivity|].
  cbn [bind].
  rewrite (requireString_ok (QString a) _ a eq_refl Ha).
  rewrite (requireString_ok (QString b) _ b eq_refl Hb). simpl.
  destruct (truthy (validkeys req) || truthy (notallowedkeys req)); [|reflexivity].
  simpl. apply isEmpty_false in Ha, Hb. rewrite Ha, Hb. simpl. now rewrite Hab.
Qed.

(** X6.  GET /resolve/user/input reads the input up to surrounding
    whitespace and an optional leading plus sign: two non-blank inputs
    with the same trimmed, plus-prefixed form get the same response, and
    so does that form itself. *)
Theorem input_read_up_to_blanks_and_plus (parse : string -> parsed) (req : query)
    (a : string) :
  input req = QString a -> trim a <> "" ->
  (forall b, trim b <> "" -> withPlus (trim b) = withPlus (trim a) ->
     resolve_user_input parse (withInput req (QString b)) = resolve_user_input parse req)
  /\ resolve_user_input parse (withInput req (QString (withPlus (trim a))))
     = resolve_user_input parse req.
Proof.
  intros Hi Ha. split.
  - intros b Hb Hab. now apply (user_input_same_number parse req a b).
  - assert (Ht : trim (withPlus (trim a)) = withPlus (trim a))
      by apply trim_withPlus, trim_idem.
    apply (user_input_same_number parse req a); try assumption.
    + rewrite Ht. apply withPlus_not_empty.
    + now rewrite Ht, withPlus_idem.
Qed.

Lemma input_read_up_to_blanks_and_plus_witness :
  resolve_user_input sampleParser
    (withInput (userQuery (QString "  14155550100 ") (QString "us") QAbsent QAbsent)
       (QString "+14155550100"))
  = resolve_user_input sampleParser
      (userQuery (QString "  14155550100 ") (QString "us") QAbsent QAbsent).
Proof.
  apply (proj1 (input_read_up_to_blanks_and_plus sampleParser
                  (userQuery (QString "  14155550100 ") (QString "us") QAbsent QAbsent)
                  "  14155550100 " eq_refl ltac:(vm_compute; discriminate))).
  - vm_compute. discriminate.
  - reflexivity.
Defined.

Lemma resolvedKey_ext (c : option string) (b b' a a' : list string) (dk : string) :
  (forall k, includes b k = includes b' k) ->
  (forall k, includes a k = includes a' k) ->
  resolvedKey c b a dk = resolvedKey c b' a' dk.
Proof.
  intros Hb Ha. unfold resolvedKey. destruct c as [k|]; [|reflexivity].
  now rewrite Hb, Ha.
Qed.

Lemma includes_same_members (l l' : list string) :
  (forall k, In k l <-> In k l') -> forall k, includes l k = includes l' k.
Proof.
  intros H k. destruct (includes l k) eqn:E; symmetry.
  - apply includes_In. apply H. now apply includes_In.
  - apply includes_not_In. intros Hin. apply H in Hin.
    apply includes_In in Hin. congruence.
Qed.

Lemma user_input_keys_ext (parse : string -> parsed) (req : query) (vk nk : qval) :
  truthy vk || truthy nk = truthy (validkeys req) || truthy (notallowedkeys req) ->
  (forall k, includes (parseKeys nk) k = includes (parseKeys (notallowedkeys req)) k) ->
  (forall k, includes (parseKeys vk) k = includes (parseKeys (validkeys req)) k) ->
  resolve_user_input parse (withNotAllowedKeys (withValidKeys req vk) nk)
  = resolve_user_input parse req.
Proof.
  intros Ht Hn Hv. unfold resolve_user_input, validate. simpl. rewrite Ht.
  destruct (normalizeDefaultKey "garbage" (defaultkey req)) as [o|dk]; [reflexivity|].
  simpl.
  destruct (requireString (input req) "Missing required field: input") as [o|inp];
    [reflexivity|]. simpl.
  destruct (truthy (validkeys req) || truthy (notallowedkeys req)); [|reflexivity].
  simpl. destruct (isEmpty (trim inp)); [reflexivity|]. simpl.
  now rewrite (resolvedKey_ext _ _ _ _ _ dk Hn Hv).
Qed.

(** X7.  The key lists of GET /resolve/user/input are sets: when the gate
    on the raw values falls the same way, two requests whose parsed
    [validkeys] have the same members and whose parsed [notallowedkeys]
    have the same members get the same response, whatever the order,
    the repetitions, the blanks and the letter case. *)
Theorem key_lists_are_sets (parse : string -> parsed) (req : query) (vk nk : qval) :
  truthy vk || truthy nk = truthy (validkeys req) || truthy (notallowedkeys req) ->
  (forall k, In k (parseKeys vk) <-> In k (parseKeys (validkeys req))) ->
  (forall k, In k (parseKeys nk) <-> In k (parseKeys (notallowedkeys req))) ->
  resolve_user_input parse (withNotAllowedKeys (withValidKeys req vk) nk)
  = resolve_user_input parse req.
Proof.
  intros Ht Hv Hn.
  apply user_input_keys_ext; [exact Ht | |]; now apply includes_same_members.
Qed.

Lemma key_lists_are_sets_witness :
  resolve_user_input sampleParser
    (userQuery (QString "+14155550100") (QString "ca, US ,ca,") (QString "pk") QAbsent)
  = Json (ok "us").
Proof.
  rewrite <- (key_lists_are_sets sampleParser
                (userQuery (QString "+14155550100") (QString "ca, US ,ca,") (QString "pk")
                   QAbsent)
                (QString "us,ca") (QString "PK,pk") eq_refl).
  - reflexivity.
  - intros k. simpl. tauto.
  - intros k. simpl. tauto.
Defined.

Lemma joined_not_empty (s t : string) : isEmpty (s ++ String "," t) = false.
Proof. destruct s; reflexivity. Qed.

Lemma includes_app (l l' : list string) (k : string) :
  includes (l ++ l') k = includes l k || includes l' k.
Proof. unfold includes. apply existsb_app. Qed.


Lemma validate_with_deny_list (req : query) (nk : qval) (v : string * string) :
  validate req = inr v -> truthy nk = true ->
  validate (withNotAllowedKeys req nk) = inr v.
Proof.
  destruct v as [dk raw]. intros E Hn.
  apply validate_inr in E. destruct E as [inp [Hi [Hne [-> [Hd _]]]]].
  apply validate_inr. exists inp. simpl. rewrite Hn, orb_true_r. now repeat split.
Qed.

(** X8.  Lengthening the deny list of a request that passes validation
    either leaves the response as it was or turns it into the blocked
    marker; a blocked number stays blocked. *)
Theorem deny_list_grows (parse : string -> parsed) (req : query) (nk : qval) :
  passesValidation req = true ->
  truthy nk = true ->
  (forall k, In k (parseKeys (notallowedkeys req)) -> In k (parseKeys nk)) ->
  resolve_user_input parse (withNotAllowedKeys req nk) = resolve_user_input parse req
  \/ resolve_user_input parse (withNotAllowedKeys req nk) = Json (ok "not_@llowed").
Proof.
  intros Hv Hn Hsub. unfold passesValidation in Hv.
  destruct (validate req) as [o|[dk raw]] eqn:E; [discriminate|].
  rewrite (user_input_response parse req dk raw E).
  rewrite (user_input_response parse _ dk raw (validate_with_deny_list req nk _ E Hn)).
  simpl. unfold resolvedKey.
  destruct (resolveCountry parse (withPlus raw)) as [c|]; [|now left].
  destruct (includes (parseKeys nk) c) eqn:E'; [now right|].
  destruct (includes (parseKeys (notallowedkeys req)) c) eqn:E''; [|now left].
  apply includes_In, Hsub, includes_In in E''. congruence.
Qed.

Lemma deny_list_grows_witness :
  resolve_user_input sampleParser
    (withNotAllowedKeys
       (userQuery (QString "+14155550100") (QString "us") (QString "pk") QAbsent)
       (QString "pk,US"))
  = resolve_user_input sampleParser
      (userQuery (QString "+14155550100") (QString "us") (QString "pk") QAbsent)
  \/ resolve_user_input sampleParser
       (withNotAllowedKeys
          (userQuery (QString "+14155550100") (QString "us") (QString "pk") QAbsent)
          (QString "pk,US"))
     = Json (ok "not_@llowed").
Proof.
  apply (deny_list_grows sampleParser
           (userQuery (QString "+14155550100") (QString "us") (QString "pk") QAbsent)
           (QString "pk,US") eq_refl eq_refl).
  intros k. simpl. tauto.
Defined.

(* ===================================================================== *)
(** ** Outcomes of GET /resolve/number/whitelist *)
(* ===================================================================== *)

Lemma usable_dec (x : qval) : usable x \/ ~ usable x.
Proof.
  destruct x as [|s|].
  - right. intros [s [H _]]. discriminate.
  - destruct (trim s) as [|c r] eqn:E.
    + right. intros [s' [H Hs]]. injection H as <-. contradiction.
    + left. exists s. split; [reflexivity|]. rewrite E. discriminate.
  - right. intros [s [H _]]. discriminate.
Qed.

(** The path of a request through the whitelist handler. *)
Lemma whitelist_cases (req : query) :
  (defaultkey req = QNested /\ resolve_number_whitelist req = TypeError)
  \/ (defaultkey req <> QNested
      /\ ((~ usable (input req)
           /\ resolve_number_whitelist req
              = Json (badRequest "Missing required field: input"))
          \/ (usable (input req) /\ ~ usable (allowednumbers req)
              /\ resolve_number_whitelist req
                 = Json (badRequest "Missing required field: allowednumbers"))
          \/ exists inp nums,
               input req = QString inp /\ trim inp <> ""
               /\ allowednumbers req = QString nums /\ trim nums <> ""
               /\ ((normalizeNumber inp = None
                    /\ resolve_number_whitelist req
                       = Json (badRequest "Invalid input: empty after normalization"))
                   \/ (exists n, normalizeNumber inp = Some n
                         /\ allowedArray nums = []
                         /\ resolve_number_whitelist req
                            = Json (badRequest "No valid numbers in allowednumbers"))
                   \/ (exists n dk, normalizeNumber inp = Some n
                         /\ allowedArray nums <> []
                         /\ normalizeDefaultKey "not_@llowed" (defaultkey req) = inr dk
                         /\ resolve_number_whitelist req
                            = Json (ok (if isAllowed (allowedArray nums) n
                                        then "@llowed" else dk)))))).
Proof.
  destruct (defaultkey req) as [|d|] eqn:Ed.
  3:{ left. split; [reflexivity|]. unfold resolve_number_whitelist. now rewrite Ed. }
  all: right; split; [discriminate|].
  all: assert (Hd : defaultkey req <> QNested) by (rewrite Ed; discriminate).
  all: destruct (normalizeDefaultKey_total "not_@llowed" _ Hd) as [dk Hdk].
  all: rewrite <- Ed.
  all: unfold resolve_number_whitelist; rewrite Hdk; cbn [bind].
  all: destruct (usable_dec (input req)) as [Hi|Hi];
       [|left; split; [exact Hi|];
         now rewrite (unusable_requireString _ _ Hi)].
  all: destruct (usable_requireString _ "Missing required field: input" Hi)
         as [inp [Ei [Hne ->]]]; cbn [bind].
  all: destruct (usable_dec (allowednumbers req)) as [Ha|Ha];
       [|right; left; split; [exact Hi|]; split; [exact Ha|];
         now rewrite (unusable_requireString _ _ Ha)].
  all: destruct (usable_requireString _ "Missing required field: allowednumbers" Ha)
         as [nums [Ea [Hnn ->]]]; cbn [bind].
  all: right; right; exists inp, nums; repeat (split; [assumption|]).
  all: destruct (normalizeNumber inp) as [n|] eqn:En; cbn [bind];
       [|left; split; reflexivity].
  all: right.
  all: destruct (allowedArray nums) as [|x l] eqn:El; cbn [bind].
  all: try (left; exists n; repeat split; reflexivity).
  all: right; exists n, dk; repeat split; try assumption; discriminate.
Qed.

Lemma allowedArray_not_nil_iff (nums : string) :
  allowedArray nums <> [] <->
  exists a, In a (split "," nums) /\ allChars separator a = false.
Proof.
  split.
  - intros Hne. destruct (allowedArray nums) as [|x l] eqn:E; [now contradiction Hne|].
    assert (Hin : In x (allowedArray nums)) by (rewrite E; now left).
    apply allowedArray_In in Hin. destruct Hin as [a [n [Hin [Ha _]]]].
    exists a. split; [exact Hin|].
    destruct (allChars separator a) eqn:Es; [|reflexivity].
    apply normalized_number_null_iff in Es. congruence.
  - intros [a [Hin Ha]] E.
    destruct (normalizeNumber a) as [n|] eqn:En.
    + assert (Hx : In (Some n) (allowedArray nums))
        by (apply allowedArray_In; now exists a, n).
      rewrite E in Hx. destruct Hx.
    + apply normalized_number_null_iff in En. congruence.
Qed.

(** X9.  GET /resolve/number/whitelist raises exactly when [defaultkey]
    is an array or object; it answers 200 exactly when, besides, the input
    is a string with a character that is not a separator and some comma
    segment of [allowednumbers] has such a character; every other request
    gets a 400.  The 400 "Invalid input: empty after normalization" goes
    to the non-blank inputs made of separators only, such as a lone
    hyphen, when [allowednumbers] is not blank. *)
Theorem whitelist_outcomes (req : query) :
  (resolve_number_whitelist req = TypeError <-> defaultkey req = QNested)
  /\ ((exists msg, resolve_number_whitelist req = Json (ok msg)) <->
      defaultkey req <> QNested
      /\ (exists inp, input req = QString inp /\ allChars separator inp = false)
      /\ (exists nums a, allowednumbers req = QString nums
            /\ In a (split "," nums) /\ allChars separator a = false))
  /\ (resolve_number_whitelist req
      = Json (badRequest "Invalid input: empty after normalization") <->
      defaultkey req <> QNested
      /\ usable (allowednumbers req)
      /\ exists inp, input req = QString inp /\ trim inp <> ""
                     /\ allChars separator inp = true)
  /\ (resolve_number_whitelist req = TypeError
      \/ (exists msg, resolve_number_whitelist req = Json (ok msg))
      \/ exists msg, resolve_number_whitelist req = Json (badRequest msg)).
Proof.
  assert (Hsep : forall inp, input req = QString inp -> allChars separator inp = false ->
                 usable (input req)).
  { intros inp Ei Hs. exists inp. split; [exact Ei|]. intros Ht.
    apply trim_blank in Ht.
    apply (allChars_impl _ separator _ whiteSpace_separator) in Ht. congruence. }
  assert (Hseg : forall nums a, allowednumbers req = QString nums ->
                 In a (split "," nums) -> allChars separator a = false ->
                 usable (allowednumbers req) /\ allowedArray nums <> []).
  { intros nums a Ea Hin Hs.
    assert (Hne : allowedArray nums <> [])
      by (apply allowedArray_not_nil_iff; now exists a).
    split; [|exact Hne]. exists nums. split; [exact Ea|].
    now apply allowedArray_not_blank. }
  destruct (whitelist_cases req)
    as [[Hd ->]|[Hd [[Hi ->]|[[Hi [Ha ->]]|[inp [nums [Ei [Hne [Ea [Hnn H]]]]]]]]]].
  - split; [|split; [|split; [|now left]]].
    + split; [intros _; exact Hd | reflexivity].
    + split; [intros [msg Hx]; discriminate | intros [Hx _]; contradiction].
    + split; [discriminate | intros [Hx _]; contradiction].
  - split; [|split; [|split; [|right; right; now eexists]]].
    + split; [discriminate | intros Hx; contradiction].
    + split; [intros [msg Hx]; discriminate|].
      intros [_ [[inp [Ei Hs]] _]]. contradiction Hi. now apply (Hsep inp).
    + split; [discriminate|].
      intros [_ [_ [inp [Ei [Hne _]]]]]. contradiction Hi. now exists inp.
  - split; [|split; [|split; [|right; right; now eexists]]].
    + split; [discriminate | intros Hx; contradiction].
    + split; [intros [msg Hx]; discriminate|].
      intros [_ [_ [nums [a [Ea [Hin Hs]]]]]]. contradiction Ha.
      exact (proj1 (Hseg nums a Ea Hin Hs)).
    + split; [discriminate | intros [_ [Hx _]]; contradiction].
  - assert (Hu : usable (allowednumbers req)) by now exists nums.
    destruct H as [[Hn ->]|[[n [Hn [He ->]]]|[n [dk [Hn [He [Hdk ->]]]]]]].
    + split; [|split; [|split; [|right; right; now eexists]]].
      * split; [discriminate | intros Hx; contradiction].
      * split; [intros [msg Hx]; discriminate|].
        intros [_ [[inp' [Ei' Hs]] _]]. rewrite Ei in Ei'. injection Ei' as <-.
        apply normalized_number_null_iff in Hn. congruence.
      * split; [|reflexivity]. intros _. split; [exact Hd|]. split; [exact Hu|].
        exists inp. repeat split; try assumption.
        now apply normalized_number_null_iff.
    + split; [|split; [|split; [|right; right; now eexists]]].
      * split; [discriminate | intros Hx; contradiction].
      * split; [intros [msg Hx]; discriminate|].
        intros [_ [_ [nums' [a [Ea' [Hin Hs]]]]]]. rewrite Ea in Ea'.
        injection Ea' as <-.
        pose proof (proj2 (Hseg nums a Ea Hin Hs)). contradiction.
      * split; [discriminate|].
        intros [_ [_ [inp' [Ei' [_ Hs]]]]]. rewrite Ei in Ei'. injection Ei' as <-.
        apply normalized_number_null_iff in Hs. congruence.
    + split; [|split; [|split; [|right; left; now eexists]]].
      * split; [discriminate | intros Hx; contradiction].
      * split; [|intros _; now eexists].
        intros _. split; [exact Hd|]. split.
        -- exists inp. split; [exact Ei|].
           destruct (allChars separator inp) eqn:Es; [|reflexivity].
           apply normalized_number_null_iff in Es. congruence.
        -- apply allowedArray_not_nil_iff in He. destruct He as [a [Hin Hs]].
           now exists nums, a.
      * split; [discriminate|].
        intros [_ [_ [inp' [Ei' [_ Hs]]]]]. rewrite Ei in Ei'. injection Ei' as <-.
        apply normalized_number_null_iff in Hs. congruence.
Qed.

Lemma isAllowed_In (allowed : list (option string)) (n : string) :
  isAllowed allowed n = true <-> In (Some n) allowed.
Proof.
  unfold isAllowed. rewrite existsb_exists. split.
  - intros [x [Hin Hx]]. apply sameValue_Some in Hx. now subst x.
  - intros Hin. exists (Some n). split; [exact Hin | now apply sameValue_Some].
Qed.

(** X10.  A 200 from GET /resolve/number/whitelist carries a non-empty
    message that is ["@llowed"] or the normalised default key.  A message
    other than ["@llowed"] means that no allowed number has the normal
    form of the input; ["@llowed"] means that one has, unless the caller
    chose ["@llowed"] as default key. *)
Theorem whitelist_answer_is_sound (req : query) (msg : string) :
  resolve_number_whitelist req = Json (ok msg) ->
  msg <> ""
  /\ exists dk inp nums n,
       normalizeDefaultKey "not_@llowed" (defaultkey req) = inr dk
       /\ input req = QString inp /\ allowednumbers req = QString nums
       /\ normalizeNumber inp = Some n
       /\ (msg = "@llowed" \/ msg = dk)
       /\ (msg <> "@llowed" ->
           forall a, In a (split "," nums) -> normalizeNumber a <> Some n)
       /\ (dk <> "@llowed" -> msg = "@llowed" ->
           exists a, In a (split "," nums) /\ normalizeNumber a = Some n).
Proof.
  intros Hr.
  destruct (whitelist_cases req)
    as [[_ H]|[Hd [[_ H]|[[_ [_ H]]|[inp [nums [Ei [Hne [Ea [Hnn H]]]]]]]]]];
    try (rewrite H in Hr; discriminate).
  destruct H as [[_ H]|[[n [_ [_ H]]]|[n [dk [Hn [He [Hdk H]]]]]]];
    try (rewrite H in Hr; discriminate).
  rewrite H in Hr. injection Hr as <-.
  pose proof (normalizeDefaultKey_not_empty "not_@llowed" _ dk ltac:(discriminate) Hdk)
    as Hdne.
  split; [destruct (isAllowed (allowedArray nums) n); [discriminate | exact Hdne]|].
  exists dk, inp, nums, n. repeat (split; [assumption|]).
  destruct (isAllowed (allowedArray nums) n) eqn:E.
  - split; [now left|]. split; [intros Hx; now contradiction Hx|].
    intros _ _. now apply isAllowed_iff.
  - split; [now right|]. split.
    + intros _ a Hin Ha.
      assert (Hx : isAllowed (allowedArray nums) n = true)
        by (apply isAllowed_iff; now exists a).
      congruence.
    + intros Hx Hy. contradiction.
Qed.

Lemma whitelist_answer_is_sound_witness :
  normalizeNumber " 923001234567" <> Some "+442071838750".
Proof.
  destruct (whitelist_answer_is_sound
              (whitelistQuery (QString "+44 20 7183 8750")
                 (QString "+14155550100, 923001234567") (QString "Unknown"))
              "unknown" eq_refl)
    as [_ [dk [inp [nums [n [_ [Ei [Ea [Hn [_ [Hno _]]]]]]]]]]].
  injection Ei as <-. injection Ea as <-. injection Hn as <-.
  apply Hno; [discriminate|]. right. left. reflexivity.
Defined.

(* ===================================================================== *)
(** ** What GET /resolve/number/whitelist reads of its parameters *)
(* ===================================================================== *)

Lemma whitelist_same_number (req : query) (a b m : string) :
  input req = QString a ->
  normalizeNumber a = Some m -> normalizeNumber b = Some m ->
  resolve_number_whitelist (withInput req (QString b)) = resolve_number_whitelist req.
Proof.
  intros Hi Ha Hb. unfold resolve_number_whitelist, withInput.
  cbn [input allowednumbers defaultkey]. rewrite Hi.
  destruct (normalizeDefaultKey "not_@llowed" (defaultkey req)) as [o|dk]; [reflexivity|].
  cbn [bind].
  rewrite (requireString_ok (QString a) _ a eq_refl (normalizeNumber_not_blank _ _ Ha)).
  rewrite (requireString_ok (QString b) _ b eq_refl (normalizeNumber_not_blank _ _ Hb)).
  cbn [bind].
  destruct (requireString (allowednumbers req) "Missing required field: allowednumbers");
    [reflexivity|].
  cbn [bind]. now rewrite Ha, Hb.
Qed.

(** X11.  GET /resolve/number/whitelist reads the input up to its
    separators and an optional leading plus sign: two inputs with the
    same normal form get the same response, and so does the normal form
    itself. *)
Theorem whitelist_input_read_up_to_format (req : query) (a m : string) :
  input req = QString a ->
  normalizeNumber a = Some m ->
  (forall b, normalizeNumber b = Some m ->
     resolve_number_whitelist (withInput req (QString b)) = resolve_number_whitelist req)
  /\ resolve_number_whitelist (withInput req (QString m)) = resolve_number_whitelist req.
Proof.
  intros Hi Ha. split.
  - intros b Hb. exact (whitelist_same_number req a b m Hi Ha Hb).
  - apply (whitelist_same_number req a m m Hi Ha).
    rewrite normalizeNumber_stripped in Ha |- *.
    destruct (isEmpty (removeAll separator a)) eqn:E; [discriminate|].
    injection Ha as <-.
    assert (Hc : allChars notSeparator (withPlus (removeAll separator a)) = true)
      by apply withPlus_clean, removeAll_clean.
    rewrite (removeAll_none _ _ Hc), withPlus_idem.
    pose proof (withPlus_not_empty (removeAll separator a)) as Hne.
    apply isEmpty_false in Hne. now rewrite Hne.
Qed.

Lemma whitelist_input_read_up_to_format_witness :
  resolve_number_whitelist
    (withInput (whitelistQuery (QString "1 (415) 555-0100") (QString "+14155550100") QAbsent)
       (QString "+1-415-555-0100"))
  = resolve_number_whitelist
      (whitelistQuery (QString "1 (415) 555-0100") (QString "+14155550100") QAbsent).
Proof.
  apply (proj1 (whitelist_input_read_up_to_format
                  (whitelistQuery (QString "1 (415) 555-0100") (QString "+14155550100")
                     QAbsent)
                  "1 (415) 555-0100" "+14155550100" eq_refl eq_refl)).
  reflexivity.
Defined.

Lemma allowedArray_app (s t : string) :
  allowedArray (s ++ String "," t) = (allowedArray s ++ allowedArray t)%list.
Proof. unfold allowedArray. now rewrite split_app, map_app, filter_app. Qed.

Lemma isAllowed_app (l l' : list (option string)) (n : string) :
  isAllowed (l ++ l') n = isAllowed l n || isAllowed l' n.
Proof. unfold isAllowed. apply existsb_app. Qed.

Lemma isAllowed_same_members (l l' : list (option string)) (n : string) :
  (forall x, In x l <-> In x l') -> isAllowed l n = isAllowed l' n.
Proof.
  intros H. destruct (isAllowed l n) eqn:E; symmetry.
  - apply isAllowed_In, H, isAllowed_In. exact E.
  - destruct (isAllowed l' n) eqn:E'; [|reflexivity].
    apply isAllowed_In, H, isAllowed_In in E'. congruence.
Qed.

(** The response once the input and the default key are settled, as a
    function of the candidates alone. *)
Lemma whitelist_same_candidates (req : query) (nums nums' : string) :
  allowednumbers req = QString nums ->
  trim nums <> "" -> trim nums' <> "" ->
  (allowedArray nums = [] <-> allowedArray nums' = []) ->
  (forall n, isAllowed (allowedArray nums') n = isAllowed (allowedArray nums) n) ->
  resolve_number_whitelist (withAllowedNumbers req (QString nums'))
  = resolve_number_whitelist req.
Proof.
  intros Ha Hn Hn' Hnil Hmem. unfold resolve_number_whitelist, withAllowedNumbers.
  cbn [input allowednumbers defaultkey]. rewrite Ha.
  destruct (normalizeDefaultKey "not_@llowed" (defaultkey req)) as [o|dk]; [reflexivity|].
  cbn [bind].
  destruct (requireString (input req) "Missing required field: input") as [o|inp];
    [reflexivity|].
  cbn [bind].
  rewrite (requireString_ok (QString nums) _ nums eq_refl Hn).
  rewrite (requireString_ok (QString nums') _ nums' eq_refl Hn').
  cbn [bind].
  destruct (normalizeNumber inp) as [n|]; [|reflexivity].
  cbn [bind]. specialize (Hmem n).
  destruct (allowedArray nums) as [|x l] eqn:E;
    destruct (allowedArray nums') as [|x' l'] eqn:E'.
  - reflexivity.
  - pose proof (proj1 Hnil eq_refl). discriminate.
  - pose proof (proj2 Hnil eq_refl). discriminate.
  - cbn [List.length Nat.eqb negb bind ret run]. now rewrite Hmem.
Qed.

(** X12.  The allowed numbers of GET /resolve/number/whitelist are a set
    of normal forms: a list with the same candidates, in any order and
    with any repetitions and formatting, gets the same response when
    there is a candidate at all, and exchanging the two sides of a comma
    never changes the response. *)
Theorem allowed_numbers_are_a_set (req : query) (nums : string) :
  allowednumbers req = QString nums ->
  (forall nums',
     allowedArray nums <> [] ->
     (forall x, In x (allowedArray nums') <-> In x (allowedArray nums)) ->
     resolve_number_whitelist (withAllowedNumbers req (QString nums'))
     = resolve_number_whitelist req)
  /\ (forall s t, nums = s ++ "," ++ t ->
        resolve_number_whitelist (withAllowedNumbers req (QString (t ++ "," ++ s)))
        = resolve_number_whitelist req).
Proof.
  intros Ha. split.
  - intros nums' Hne Hmem.
    assert (Hne' : allowedArray nums' <> []).
    { destruct (allowedArray nums) as [|x l] eqn:E; [now contradiction Hne|].
      intros E'. assert (Hx : In x (allowedArray nums')) by (apply Hmem; now left).
      rewrite E' in Hx. destruct Hx. }
    apply (whitelist_same_candidates req nums nums' Ha).
    + now apply allowedArray_not_blank.
    + now apply allowedArray_not_blank.
    + split; intros; contradiction.
    + intros n. now apply isAllowed_same_members.
  - intros s t ->.
    apply (whitelist_same_candidates req _ _ Ha).
    + apply not_blank_with_comma.
    + apply not_blank_with_comma.
    + change (s ++ "," ++ t) with (s ++ String "," t).
      change (t ++ "," ++ s) with (t ++ String "," s).
      rewrite !allowedArray_app.
      destruct (allowedArray s), (allowedArray t); simpl; split; congruence.
    + intros n.
      change (s ++ "," ++ t) with (s ++ String "," t).
      change (t ++ "," ++ s) with (t ++ String "," s).
      rewrite !allowedArray_app, !isAllowed_app. apply orb_comm.
Qed.

Lemma allowed_numbers_are_a_set_witness :
  resolve_number_whitelist
    (withAllowedNumbers
       (whitelistQuery (QString "+14155550100") (QString "+923001234567,+14155550100")
          QAbsent)
       (QString "+14155550100,+923001234567"))
  = resolve_number_whitelist
      (whitelistQuery (QString "+14155550100") (QString "+923001234567,+14155550100")
         QAbsent).
Proof.
  apply (proj2 (allowed_numbers_are_a_set
                  (whitelistQuery (QString "+14155550100")
                     (QString "+923001234567,+14155550100") QAbsent)
                  "+923001234567,+14155550100" eq_refl)
           "+923001234567" "+14155550100").
  reflexivity.
Defined.

(** X13.  Adding numbers to the whitelist never takes an answer back: a
    request answered ["@llowed"] is answered ["@llowed"] again when more
    numbers are appended to [allowednumbers] or put in front of it. *)
Theorem whitelist_grows (req : query) (nums t : string) :
  allowednumbers req = QString nums ->
  resolve_number_whitelist req = Json (ok "@llowed") ->
  resolve_number_whitelist (withAllowedNumbers req (QString (nums ++ "," ++ t)))
  = Json (ok "@llowed")
  /\ resolve_number_whitelist (withAllowedNumbers req (QString (t ++ "," ++ nums)))
     = Json (ok "@llowed").
Proof.
  intros Ha Hr.
  destruct (whitelist_cases req)
    as [[_ H]|[Hd [[_ H]|[[_ [_ H]]|[inp [nums' [Ei [Hne [Ea [Hnn H]]]]]]]]]];
    try (rewrite H in Hr; discriminate).
  destruct H as [[_ H]|[[n [_ [_ H]]]|[n [dk [Hn [He [Hdk H]]]]]]];
    try (rewrite H in Hr; discriminate).
  rewrite Ha in Ea. injection Ea as <-.
  rewrite H in Hr. injection Hr as Hm.
  change (nums ++ "," ++ t) with (nums ++ String "," t).
  change (t ++ "," ++ nums) with (t ++ String "," nums).
  split.
  - rewrite (whitelist_response (withAllowedNumbers req (QString (nums ++ String "," t)))
               dk inp (nums ++ String "," t) n Hdk Ei eq_refl Hn).
    + rewrite allowedArray_app, isAllowed_app.
      destruct (isAllowed (allowedArray nums) n); simpl; [reflexivity|].
      rewrite Hm. now destruct (isAllowed (allowedArray t) n).
    + rewrite allowedArray_app. destruct (allowedArray nums); [now contradiction He|].
      discriminate.
  - rewrite (whitelist_response (withAllowedNumbers req (QString (t ++ String "," nums)))
               dk inp (t ++ String "," nums) n Hdk Ei eq_refl Hn).
    + rewrite allowedArray_app, isAllowed_app.
      destruct (isAllowed (allowedArray nums) n); simpl.
      * now rewrite orb_true_r.
      * rewrite Hm. now destruct (isAllowed (allowedArray t) n).
    + rewrite allowedArray_app. destruct (allowedArray nums); [now contradiction He|].
      destruct (allowedArray t); discriminate.
Qed.

Lemma whitelist_grows_witness :
  resolve_number_whitelist
    (withAllowedNumbers
       (whitelistQuery (QString "+14155550100") (QString "1 415 555 0100") QAbsent)
       (QString ("1 415 555 0100" ++ "," ++ "+923001234567")))
  = Json (ok "@llowed").
Proof.
  exact (proj1 (whitelist_grows
                  (whitelistQuery (QString "+14155550100") (QString "1 415 555 0100")
                     QAbsent)
                  "1 415 555 0100" "+923001234567" eq_refl eq_refl)).
Defined.

(* ===================================================================== *)
(** ** The copy with the plain marker *)
(* ===================================================================== *)



(* ===================================================================== *)
(** ** The first handler *)
(* ===================================================================== *)

Lemma legacy_default_key (d : qval) :
  d <> QNested ->
  exists dk, Legacy.normalizeDefaultKey d = inr dk
             /\ (forall s, d = QString s -> trim s = s ->
                   normalizeDefaultKey "garbage" d = inr dk).
Proof.
  destruct d as [|s|]; intros Hd.
  - exists "garbage". split; [reflexivity | discriminate].
  - eexists. split; [reflexivity|]. intros s' H Ht. injection H as <-.
    simpl. now rewrite Ht.
  - now contradiction Hd.
Qed.

Lemma legacy_response (parse : string -> parsed) (req : query) (dk inp keys : string) :
  Legacy.normalizeDefaultKey (defaultkey req) = inr dk ->
  input req = QString inp -> inp <> "" ->
  validkeys req = QString keys -> keys <> "" ->
  Legacy.resolve_user_input parse req =
  Json (ok (Legacy.resolvedKey
              (Legacy.resolveCountry parse
                 (withPlus (trim (Legacy.removeFirst "whatsapp:" inp))))
              (map toLowerCase (split "," keys)) dk)).
Proof.
  intros Hd Hi Hne Hv Hk. unfold Legacy.resolve_user_input.
  rewrite Hd, Hi, Hv. cbn [bind truthy Legacy.asString].
  apply isEmpty_false in Hne, Hk. rewrite Hne, Hk. reflexivity.
Qed.

Lemma removeFirst_prefix (n : string) : Legacy.removeFirst "whatsapp:" ("whatsapp:" ++ n) = n.
Proof. reflexivity. Qed.

Lemma removeFirst_absent (pat s : string) :
  Legacy.occurs pat s = false -> Legacy.removeFirst pat s = s.
Proof.
  induction s as [|c r IH]; simpl; intros H.
  - apply orb_false_elim in H. destruct H as [H _]. now rewrite H.
  - apply orb_false_elim in H. destruct H as [H Hr]. rewrite H.
    now rewrite (IH Hr).
Qed.

Lemma blank_has_no_prefix (s : string) :
  allChars isWhiteSpace s = true -> Legacy.occurs "whatsapp:" s = false.
Proof.
  induction s as [|c r IH]; simpl; [reflexivity|].
  intros H. apply andb_prop in H. destruct H as [Hc Hr].
  rewrite (IH Hr), orb_false_r.
  destruct (Ascii.eqb c "w") eqn:E; [|reflexivity].
  apply Ascii.eqb_eq in E. subst c. discriminate.
Qed.

(** X15.  The first handler ends in one of three ways: a [TypeError] when
    [defaultkey], or else a supplied [input] or [validkeys], is an array
    or object; the 400 "Missing required fields: input or validkeys" when
    [defaultkey] is fine and [input] or [validkeys] is missing or empty;
    a 200 in every other case, also for a blank input. *)
Theorem legacy_outcomes (parse : string -> parsed) (req : query) :
  (defaultkey req = QNested /\ Legacy.resolve_user_input parse req = TypeError)
  \/ (defaultkey req <> QNested
      /\ (truthy (input req) = false \/ truthy (validkeys req) = false)
      /\ Legacy.resolve_user_input parse req
         = Json (badRequest "Missing required fields: input or validkeys"))
  \/ (defaultkey req <> QNested
      /\ truthy (input req) = true /\ truthy (validkeys req) = true
      /\ (input req = QNested \/ validkeys req = QNested)
      /\ Legacy.resolve_user_input parse req = TypeError)
  \/ (defaultkey req <> QNested
      /\ (exists inp keys, input req = QString inp /\ inp <> ""
            /\ validkeys req = QString keys /\ keys <> "")
      /\ exists msg, Legacy.resolve_user_input parse req = Json (ok msg)).
Proof.
  destruct (defaultkey req) as [|d|] eqn:Ed.
  3:{ left. split; [reflexivity|]. unfold Legacy.resolve_user_input. now rewrite Ed. }
  all: right.
  all: assert (Hd : defaultkey req <> QNested) by (rewrite Ed; discriminate).
  all: destruct (legacy_default_key _ Hd) as [dk [Hdk _]]; rewrite <- Ed.
  all: destruct (truthy (input req) && truthy (validkeys req)) eqn:Eg;
       [|left; split; [exact Hd|]; split; [now apply andb_false_iff|];
         unfold Legacy.resolve_user_input; rewrite Hdk; cbn [bind];
         now rewrite Eg].
  all: right; pose proof Eg as Eg'; apply andb_prop in Eg'; destruct Eg' as [Ti Tv].
  all: destruct (input req) as [|inp|] eqn:Ei; [discriminate | |].
  all: try (left; repeat split; try assumption; [now left|];
            unfold Legacy.resolve_user_input; rewrite Hdk, Ei; cbn [bind];
            now rewrite Eg).
  all: destruct (validkeys req) as [|keys|] eqn:Ev; [discriminate | |].
  all: try (left; repeat split; try assumption; [now right|];
            unfold Legacy.resolve_user_input; rewrite Hdk, Ei, Ev; cbn [bind];
            now rewrite Eg).
  all: simpl in Ti, Tv; apply negb_true_iff, isEmpty_false in Ti;
       apply negb_true_iff, isEmpty_false in Tv.
  all: right; split; [exact Hd|]; split; [now exists inp, keys|].
  all: eexists; exact (legacy_response parse req dk inp keys Hdk Ei Ti Ev Tv).
Qed.

(** X16.  The first handler drops a leading ["whatsapp:"] before it looks
    the number up: ["whatsapp:<number>"] and ["<number>"] get the same
    response, for a non-empty number in which the prefix does not occur
    again. *)
Theorem legacy_strips_channel_prefix (parse : string -> parsed) (req : query)
    (n : string) :
  n <> "" ->
  Legacy.occurs "whatsapp:" n = false ->
  Legacy.resolve_user_input parse (withInput req (QString ("whatsapp:" ++ n)))
  = Legacy.resolve_user_input parse (withInput req (QString n)).
Proof.
  intros Hne Hocc. unfold Legacy.resolve_user_input, withInput.
  cbn [input validkeys defaultkey truthy Legacy.asString].
  apply isEmpty_false in Hne. rewrite Hne.
  change (isEmpty ("whatsapp:" ++ n)) with false.
  destruct (Legacy.normalizeDefaultKey (defaultkey req)) as [o|dk]; [reflexivity|].
  cbn [bind negb andb].
  destruct (truthy (validkeys req)); [|reflexivity].
  cbn [bind ret].
  now rewrite removeFirst_prefix, (removeFirst_absent _ _ Hocc).
Qed.

Lemma legacy_strips_channel_prefix_witness :
  Legacy.resolve_user_input sampleParser
    (withInput (userQuery QAbsent (QString "US,pk") QAbsent QAbsent)
       (QString ("whatsapp:" ++ "+14155550100")))
  = Legacy.resolve_user_input sampleParser
      (withInput (userQuery QAbsent (QString "US,pk") QAbsent QAbsent)
         (QString "+14155550100")).
Proof.
  apply (legacy_strips_channel_prefix sampleParser
           (userQuery QAbsent (QString "US,pk") QAbsent QAbsent) "+14155550100").
  - discriminate.
  - reflexivity.
Defined.

Lemma includes_filter_not_empty (l : list string) (c : string) :
  c <> "" ->
  includes (filter (fun k => (0 <? String.length k)%nat) l) c = includes l c.
Proof.
  intros Hc. induction l as [|k l IH]; simpl; [reflexivity|].
  destruct k as [|a r]; simpl.
  - rewrite IH. destruct c; [now contradiction Hc | reflexivity].
  - unfold includes in *. simpl. now rewrite IH.
Qed.

Lemma parseKeys_trimmed_segments (keys : string) :
  keys <> "" ->
  (forall a, In a (split "," keys) -> trim a = a) ->
  parseKeys (QString keys)
  = filter (fun k => (0 <? String.length k)%nat) (map toLowerCase (split "," keys)).
Proof.
  intros Hk Ht. rewrite parseKeys_filter. f_equal.
  apply map_ext_in. intros a Hin. now rewrite (Ht a Hin).
Qed.

Lemma legacy_country (parse : string -> parsed) (raw : string) :
  resolveCountry parse raw
  = match Legacy.resolveCountry parse raw with
    | Some c => if isEmpty c then None else Some c
    | None => None
    end.
Proof.
  unfold resolveCountry, Legacy.resolveCountry.
  destruct (parse raw) as [|[phone|]]; try reflexivity.
  destruct (isValid phone); [|reflexivity].
  destruct (country phone); reflexivity.
Qed.

Lemma legacy_fails_no_country (parse : string -> parsed) (raw : string) :
  failsToParse parse raw -> Legacy.resolveCountry parse raw = None.
Proof.
  unfold Legacy.resolveCountry.
  intros [->|[->|[phone [-> ->]]]]; reflexivity.
Qed.

(** X17.  The first handler and [src/api/index.js] agree on the requests
    both were written for: no deny list, a default key without
    surrounding blanks, a non-blank input without the channel prefix,
    keys without blanks around them, and parsers that return the same
    number or both fail. *)
Theorem legacy_agrees_with_current (legacy current : string -> parsed) (req : query)
    (inp keys : string) :
  defaultkey req <> QNested ->
  (forall d, defaultkey req = QString d -> trim d = d) ->
  input req = QString inp -> trim inp <> "" ->
  Legacy.occurs "whatsapp:" inp = false ->
  validkeys req = QString keys -> keys <> "" ->
  (forall a, In a (split "," keys) -> trim a = a) ->
  parseKeys (notallowedkeys req) = [] ->
  (legacy (withPlus (trim inp)) = current (withPlus (trim inp))
   \/ (failsToParse legacy (withPlus (trim inp))
       /\ failsToParse current (withPlus (trim inp)))) ->
  Legacy.resolve_user_input legacy req = resolve_user_input current req.
Proof.
  intros Hd Hdt Hi Hne Hocc Hv Hk Hseg Hno Hp.
  destruct (legacy_default_key _ Hd) as [dk [Hdk Hsame]].
  assert (Hdk' : normalizeDefaultKey "garbage" (defaultkey req) = inr dk).
  { destruct (defaultkey req) as [|d|] eqn:Ed.
    - simpl in Hdk. exact Hdk.
    - apply (Hsame d eq_refl). now apply Hdt.
    - now contradiction Hd. }
  assert (Hin : inp <> "") by (intros ->; now contradiction Hne).
  rewrite (legacy_response legacy req dk inp keys Hdk Hi Hin Hv Hk).
  assert (E : validate req = inr (dk, trim inp)).
  { apply validate_inr. exists inp. repeat split; try assumption.
    rewrite Hv. simpl. apply isEmpty_false in Hk. now rewrite Hk. }
  rewrite (user_input_response current req dk _ E).
  rewrite (removeFirst_absent _ _ Hocc), Hno, Hv.
  rewrite (parseKeys_trimmed_segments keys Hk Hseg).
  do 2 f_equal. unfold Legacy.resolvedKey, resolvedKey.
  destruct Hp as [Hp|[Hl Hc]].
  - rewrite (legacy_country current).
    assert (Hsamec : Legacy.resolveCountry current (withPlus (trim inp))
                     = Legacy.resolveCountry legacy (withPlus (trim inp)))
      by (unfold Legacy.resolveCountry; now rewrite Hp).
    rewrite Hsamec.
    destruct (Legacy.resolveCountry legacy (withPlus (trim inp))) as [c|];
      [|reflexivity].
    destruct (isEmpty c) eqn:Ec; [reflexivity|]. simpl.
    apply isEmpty_false in Ec.
    now rewrite (includes_filter_not_empty _ c Ec).
  - rewrite (legacy_fails_no_country _ _ Hl).
    now rewrite (failsToParse_no_country _ _ Hc).
Qed.

Lemma legacy_agrees_with_current_witness :
  Legacy.resolve_user_input sampleParser
    (userQuery (QString " 14155550100") (QString "ca,US") QAbsent (QString "None"))
  = resolve_user_input sampleParser
      (userQuery (QString " 14155550100") (QString "ca,US") QAbsent (QString "None")).
Proof.
  apply (legacy_agrees_with_current sampleParser sampleParser
           (userQuery (QString " 14155550100") (QString "ca,US") QAbsent (QString "None"))
           " 14155550100" "ca,US").
  - discriminate.
  - intros d H. injection H as <-. reflexivity.
  - reflexivity.
  - vm_compute. discriminate.
  - reflexivity.
  - reflexivity.
  - discriminate.
  - intros a [<-|[<-|[]]]; reflexivity.
  - reflexivity.
  - now left.
Defined.

(** X18.  A blank input is not turned down by the first handler: it asks
    the parser about the lone plus sign and answers 200, with the default
    key when the parser finds no number there.  [src/api/index.js]
    answers the same request with the 400 for the input. *)
Theorem legacy_accepts_blank_input (legacy current : string -> parsed) (req : query)
    (inp keys dk : string) :
  input req = QString inp -> inp <> "" -> trim inp = "" ->
  validkeys req = QString keys -> keys <> "" ->
  Legacy.normalizeDefaultKey (defaultkey req) = inr dk ->
  Legacy.resolve_user_input legacy req
  = Json (ok (Legacy.resolvedKey (Legacy.resolveCountry legacy "+")
                (map toLowerCase (split "," keys)) dk))
  /\ (failsToParse legacy "+" -> Legacy.resolve_user_input legacy req = Json (ok dk))
  /\ resolve_user_input current req = Json (badRequest "Missing required field: input").
Proof.
  intros Hi Hne Hb Hv Hk Hdk.
  assert (Hr : Legacy.resolve_user_input legacy req
               = Json (ok (Legacy.resolvedKey (Legacy.resolveCountry legacy "+")
                             (map toLowerCase (split "," keys)) dk))).
  { rewrite (legacy_response legacy req dk inp keys Hdk Hi Hne Hv Hk).
    apply trim_blank in Hb.
    rewrite (removeFirst_absent _ _ (blank_has_no_prefix _ Hb)).
    apply trim_blank in Hb. now rewrite Hb. }
  split; [exact Hr|]. split.
  - intros Hf. rewrite Hr. now rewrite (legacy_fails_no_country _ _ Hf).
  - apply missing_input_rejected.
    + intros Hn. rewrite Hn in Hdk. discriminate.
    + right; right. now exists inp.
Qed.

Lemma legacy_accepts_blank_input_witness :
  Legacy.resolve_user_input sampleParser
    (userQuery (QString "  ") (QString "us") QAbsent (QString "None"))
  = Json (ok "none").
Proof.
  apply (proj1 (proj2 (legacy_accepts_blank_input sampleParser sampleParser
                         (userQuery (QString "  ") (QString "us") QAbsent (QString "None"))
                         "  " "us" "none" eq_refl ltac:(discriminate) eq_refl eq_refl
                         ltac:(discriminate) eq_refl))).
  right; left. reflexivity.
Defined.
